(** * argon2-browser: the loader and hash invoker of [lib/argon2.js]

    A shallow embedding of [lib/argon2.js]: the JavaScript values the
    wrapper handles, the Emscripten runtime surface it calls, [calcHash]
    with its scratch buffers, and [argon2Hash] as a transition system over
    the browser's event loop. *)

From Stdlib Require Import ZArith NArith List String Ascii Bool Lia.
From Stdlib Require Import QArith Qround.
From Stdlib Require HexadecimalString DecimalString.
Import ListNotations.

Close Scope Q_scope.
Open Scope string_scope.
Open Scope list_scope.
Open Scope Z_scope.

(** ** JavaScript values *)

Module JS.

(** The values that flow through the wrapper: results, error objects and
    the reasons promises are rejected with. *)
Inductive Value : Type :=
| VUndefined
| VNum (z : Z)
| VStr (s : string)
| VError (msg : string)                          (* new Error(msg) *)
| VTypedErr (name msg : string)                  (* a host error, e.g. TypeError *)
| VObject (tag : string)                         (* a host object, e.g. an Event *)
| VHashResult (hash : list Z) (hashHex encoded : string)
                                                 (* { hash, hashHex, encoded } *)
| VHashError (message code : Value).             (* { message: err, code: res } *)

(** A completion: the statement or call returned [a], or threw [e]. *)
Inductive Completion (A : Type) : Type :=
| Normal (a : A)
| Throw (e : Value).
Arguments Normal {A} a.
Arguments Throw {A} e.

(** ToBoolean, as used by [!x], [x || d] and [if (x)]. *)
Definition truthy (v : Value) : bool :=
  match v with
  | VUndefined => false
  | VNum z => negb (z =? 0)
  | VStr s => negb (String.eqb s "")
  | _ => true
  end.

(** ToString, as used by ["..." + x]. *)
Definition toString (v : Value) : string :=
  match v with
  | VUndefined => "undefined"
  | VNum z => DecimalString.NilZero.string_of_int (Z.to_int z)
  | VStr s => s
  | VError msg => if String.eqb msg "" then "Error" else "Error: " ++ msg
  | VTypedErr name msg => if String.eqb msg "" then name else name ++ ": " ++ msg
  | VObject tag => "[object " ++ tag ++ "]"
  | VHashResult _ _ _ => "[object Object]"
  | VHashError _ _ => "[object Object]"
  end.

(** [x || d] on an optional unsigned number: [undefined] and [0] are falsy. *)
Definition num_or (x : option N) (d : N) : N :=
  match x with
  | Some n => if (n =? 0)%N then d else n
  | None => d
  end.

(** [!x] on an optional string: [undefined] and [""] are falsy. *)
Definition not_str (x : option string) : bool :=
  match x with
  | Some s => String.eqb s ""
  | None => true
  end.

(** [Number.prototype.toString(16)] on a non-negative integer. *)
Definition toString16 (z : Z) : string :=
  HexadecimalString.NilZero.string_of_uint (N.to_hex_uint (Z.to_N z)).

(** [s.slice(-n)]: the last [n] characters of [s]. *)
Definition slice_last (n : nat) (s : string) : string :=
  substring (String.length s - n) n s.

End JS.
Import JS.

(** ** The parameters object *)

(** [params.pass] and [params.salt] are either a JavaScript string, held as
    its UTF-16 code units, or a [Uint8Array]/[Array] of bytes. *)
Inductive Input : Type :=
| IStr (units : list Z)
| IBytes (bytes : list Z).

(** [x.length] for both kinds of input. *)
Definition input_length (x : Input) : N :=
  match x with
  | IStr units => N.of_nat (List.length units)
  | IBytes bytes => N.of_nat (List.length bytes)
  end.

(** The [params] object of [argon2.hash]; an absent property is [None].
    [cacheKey] is not documented but is read when the wasm fetch fails. *)
Record Params : Type := {
  pass : Input;
  salt : Input;
  time : option N;
  mem : option N;
  hashLen : option N;
  parallelism : option N;
  type : option N;
  asmFileUrl : option string;
  wasmFileUrl : option string;
  argon2FileUrl : option string;
  cacheKey : Value
}.

(** [var ArgonType = { Argon2d: 0, Argon2i: 1 }] *)
Module ArgonType.
Definition Argon2d : N := 0.
Definition Argon2i : N := 1.
End ArgonType.

(** The domain the specification gives to [HashParams]: time cost and
    parallelism at least 1, memory at least 8 KiB, hash length at least 4,
    variant one of the two enumerated ones. *)
Definition at_least (lo : N) (x : option N) : Prop :=
  match x with
  | Some n => (lo <= n)%N
  | None => True
  end.

Record HashParams_valid (p : Params) : Prop := {
  valid_time : at_least 1 (time p);
  valid_mem : at_least 8 (mem p);
  valid_parallelism : at_least 1 (parallelism p);
  valid_hashLen : at_least 4 (hashLen p);
  valid_type : match type p with
               | Some t => t = ArgonType.Argon2d \/ t = ArgonType.Argon2i
               | None => True
               end
}.

(** ** The Emscripten runtime surface *)

Module Emscripten.

(** One code point, possibly above the BMP, as UTF-8 bytes. *)
Definition utf8_bytes (u : Z) : list Z :=
  if u <=? 0x7F then [u]
  else if u <=? 0x7FF then
    [Z.lor 0xC0 (Z.shiftr u 6); Z.lor 0x80 (Z.land u 63)]
  else if u <=? 0xFFFF then
    [Z.lor 0xE0 (Z.shiftr u 12);
     Z.lor 0x80 (Z.land (Z.shiftr u 6) 63);
     Z.lor 0x80 (Z.land u 63)]
  else
    [Z.lor 0xF0 (Z.shiftr u 18);
     Z.lor 0x80 (Z.land (Z.shiftr u 12) 63);
     Z.lor 0x80 (Z.land (Z.shiftr u 6) 63);
     Z.lor 0x80 (Z.land u 63)].

Definition is_surrogate (u : Z) : bool := (0xD800 <=? u) && (u <=? 0xDFFF).

(** A surrogate code unit joined with the unit that follows it. *)
Definition join_surrogates (u u1 : Z) : Z :=
  Z.lor (0x10000 + Z.shiftl (Z.land u 0x3FF) 10) (Z.land u1 0x3FF).

(** Modelled from the spec: the runtime's string encoder is not under
    src/. "Allocating a string value first encodes it to bytes using the
    engine's native text representation": the UTF-16 code units are
    encoded as UTF-8, a surrogate being joined with the unit after it. *)
Fixpoint stringToUTF8 (units : list Z) : list Z :=
  match units with
  | [] => []
  | u :: rest =>
      if is_surrogate u then
        match rest with
        | [] => utf8_bytes (join_surrogates u 0)
        | u1 :: rest' => utf8_bytes (join_surrogates u u1) ++ stringToUTF8 rest'
        end
      else utf8_bytes u ++ stringToUTF8 rest
  end.

(** Modelled from the spec: [Module.intArrayFromString] is not under
    src/. It yields the encoded bytes followed by the terminator of the
    engine's native (C) text representation. *)
Definition intArrayFromString (units : list Z) : list Z :=
  stringToUTF8 units ++ [0].

(** What happened in the arena, in order. *)
Inductive ArenaOp : Type :=
| Alloc (ptr len : nat)
| Free (ptr : nat).

(** The engine's linear memory with its allocator state. [HEAP8] is
    indexed by address; [brk] is the first address never handed out;
    [live] lists the outstanding allocations. *)
Record Arena : Type := {
  HEAP8 : list Z;
  brk : nat;
  live : list (nat * nat);
  ops : list ArenaOp
}.

(** Store [data] at address [p], growing the memory with zeros up to [p]
    when it is shorter. *)
Definition write_bytes (p : nat) (data : list Z) (m : list Z) : list Z :=
  firstn p (m ++ repeat 0 (p - List.length m))
    ++ data ++ skipn (p + List.length data) m.

(** [new Array(n)] as [allocate] stores it: [n] zero bytes. *)
Definition new_Array (n : N) : list Z := repeat 0 (N.to_nat n).

(** Modelled from the spec: [Module.allocate(arr, 'i8', ALLOC_NORMAL)]
    is not under src/. "Allocation copies the given byte sequence into
    freshly carved engine memory and returns its address/length"; an
    empty array still takes one byte, so that addresses are distinct. *)
Definition allocate (arr : list Z) (a : Arena) : nat * Arena :=
  let len := Nat.max (List.length arr) 1 in
  let ptr := brk a in
  (ptr,
   {| HEAP8 := write_bytes ptr (arr ++ repeat 0 (len - List.length arr)) (HEAP8 a);
      brk := ptr + len;
      live := (ptr, len) :: live a;
      ops := ops a ++ [Alloc ptr len] |}).

Fixpoint remove_alloc (p : nat) (l : list (nat * nat)) : list (nat * nat) :=
  match l with
  | [] => []
  | (q, n) :: l' => if Nat.eqb p q then l' else (q, n) :: remove_alloc p l'
  end.

(** Modelled from the spec: [Module._free(ptr)] is not under src/. It
    ends the allocation at [ptr]. *)
Definition _free (p : nat) (a : Arena) : Arena :=
  {| HEAP8 := HEAP8 a;
     brk := brk a;
     live := remove_alloc p (live a);
     ops := ops a ++ [Free p] |}.

(** The bytes of a memory suffix up to the first zero byte. *)
Fixpoint cstring (bytes : list Z) : list Z :=
  match bytes with
  | [] => []
  | b :: rest => if b =? 0 then [] else b :: cstring rest
  end.

Definition char_of_byte (b : Z) : ascii :=
  ascii_of_N (Z.to_N (Z.land b 255)).

(** Modelled from the spec: [Module.Pointer_stringify(ptr)] is not under
    src/. It reads "a null-terminated text value" at [ptr], one
    character per byte. *)
Definition Pointer_stringify (heap : list Z) (ptr : nat) : string :=
  string_of_list_ascii (map char_of_byte (cstring (skipn ptr heap))).

(** The thirteen arguments of [Module._argon2_hash]. *)
Record HashCall : Type := {
  arg_tCost : N;
  arg_mCost : N;
  arg_parallelism : N;
  arg_pwd : nat;
  arg_pwdlen : N;
  arg_salt : nat;
  arg_saltlen : N;
  arg_hash : nat;
  arg_hashlen : N;
  arg_encoded : nat;
  arg_encodedlen : N;
  arg_argon2Type : N;
  arg_version : N
}.

(** The compiled engine, an external collaborator: what its exported
    functions do is a parameter of the development.
    - [_argon2_hash] returns a status or throws, and leaves the memory
      in some state;
    - [_argon2_error_message] maps a status (or [undefined]) to the
      address of a message, or throws;
    - [_free_throws] tells for which addresses [_free] throws. *)
Record Engine : Type := {
  _argon2_hash : HashCall -> list Z -> Completion Z * list Z;
  _argon2_error_message : Value -> list Z -> Completion nat;
  _free_throws : nat -> bool
}.

End Emscripten.
Import Emscripten.

(** ** [calcHash] and its helpers *)

(** [allocateArray], lines 40-44: a byte array is stored as it is, a
    string goes through [Module.intArrayFromString] first. *)
Definition allocateArray (strOrArr : Input) (a : Arena) : nat * Arena :=
  let arr := match strOrArr with
             | IBytes bytes => bytes
             | IStr units => intArrayFromString units
             end in
  allocate arr a.

(** [('0' + (0xFF & byte).toString(16)).slice(-2)] *)
Definition hex_byte (byte : Z) : string :=
  slice_last 2 ("0" ++ toString16 (Z.land 0xFF byte))%string.

(** Storing a number into a [Uint8Array] keeps it modulo 256. *)
Definition to_uint8 (byte : Z) : Z := byte mod 256.

(** The loop of lines 194-198: [hashArr] and [hashStr] after the
    iterations [i = 0 .. hashlen - 1]. A read outside the memory gives
    [undefined], which both uses turn into 0. *)
Definition read_hash (heap : list Z) (hash : nat) (hashlen : N) : list Z * string :=
  fold_left
    (fun acc i =>
       let byte := nth (hash + i) heap 0 in
       (fst acc ++ [to_uint8 byte], (snd acc ++ hex_byte byte)%string))
    (seq 0 (N.to_nat hashlen))
    ([], "").

(** [try { Module._free(p1); Module._free(p2); ... } catch (e) { }]:
    the first release that throws ends the block. *)
Fixpoint free_each (E : Engine) (ptrs : list nat) (a : Arena) : Arena :=
  match ptrs with
  | [] => a
  | p :: rest => if _free_throws E p then a else free_each E rest (_free p a)
  end.

Definition set_heap (heap : list Z) (a : Arena) : Arena :=
  {| HEAP8 := heap; brk := brk a; live := live a; ops := ops a |}.

(** [res === 0] *)
Definition is_zero (res : Value) : bool :=
  match res with
  | VNum 0 => true
  | _ => false
  end.

(** The arguments [calcHash] hands to the engine, given where its four
    buffers were placed (lines 170-186). *)
Definition hash_call (params : Params) (pwd salt' hash encoded : nat) : HashCall :=
  let tCost := num_or (time params) 1 in
  let mCost := num_or (mem params) 1024 in
  let parallelism := num_or (parallelism params) 1 in
  let pwdlen := input_length (pass params) in
  let saltlen := input_length (salt params) in
  let hashlen := num_or (hashLen params) 24 in
  let encodedlen := 512%N in
  let argon2Type := num_or (type params) ArgonType.Argon2d in
  let version := 0x13%N in
  {| arg_tCost := tCost; arg_mCost := mCost; arg_parallelism := parallelism;
     arg_pwd := pwd; arg_pwdlen := pwdlen;
     arg_salt := salt'; arg_saltlen := saltlen;
     arg_hash := hash; arg_hashlen := hashlen;
     arg_encoded := encoded; arg_encodedlen := encodedlen;
     arg_argon2Type := argon2Type; arg_version := version |}.

(** The four allocations of lines 173-179, in order. *)
Definition alloc_buffers (params : Params) (a0 : Arena)
  : (nat * nat * nat * nat) * Arena :=
  let '(pwd, a1) := allocateArray (pass params) a0 in
  let '(salt, a2) := allocateArray (salt params) a1 in
  let '(hash, a3) := allocate (new_Array (num_or (hashLen params) 24)) a2 in
  let '(encoded, a4) := allocate (new_Array 512) a3 in
  ((pwd, salt, hash, encoded), a4).

(** Lines 184-189: the engine call inside [try]; [res] stays [undefined]
    and [err] receives the exception when it throws. *)
Definition invoke (E : Engine) (call : HashCall) (heap : list Z)
  : Value * Value * list Z :=
  match _argon2_hash E call heap with
  | (Normal r, heap') => (VNum r, VUndefined, heap')
  | (Throw e, heap') => (VUndefined, e, heap')
  end.

(** Lines 202-207: [err] after the guarded message lookup. *)
Definition resolve_message (E : Engine) (res err : Value) (heap : list Z) : Value :=
  if negb (truthy err) then
    match _argon2_error_message E res heap with
    | Normal ptr => VStr (Pointer_stringify heap ptr)
    | Throw _ => err
    end
  else err.

(** Lines 190-209: the result object and the final [err]. *)
Definition decode (E : Engine) (res err : Value) (heap : list Z)
           (hash : nat) (hashlen : N) (encoded : nat) : Value * Value :=
  if is_zero res && negb (truthy err) then
    let '(hashArr, hashStr) := read_hash heap hash hashlen in
    let encodedStr := Pointer_stringify heap encoded in
    (VHashResult hashArr hashStr encodedStr, err)
  else
    let err' := resolve_message E res err heap in
    (VHashError err' res, err').

(** [calcHash], lines 169-221, over the arena it works in: the completion
    of the call and the arena it leaves. *)
Definition calcHash (E : Engine) (params : Params) (a0 : Arena)
  : Completion Value * Arena :=
  let '((pwd, salt, hash, encoded), a4) := alloc_buffers params a0 in
  let call := hash_call params pwd salt hash encoded in
  let '(res, err, heap) := invoke E call (HEAP8 a4) in
  let '(result, err') := decode E res err heap hash (arg_hashlen call) encoded in
  let a5 := free_each E [pwd; salt; hash; encoded] (set_heap heap a4) in
  if truthy err' then (Throw result, a5) else (Normal result, a5).

(** ** Backend selection and memory sizing *)

Inductive BackendKind : Type := Primary | Fallback.

(** What the wrapper probes of its host: whether [global.WebAssembly] is
    there, and whether [importScripts] is a function (a worker). *)
Record Host : Type := {
  WebAssembly : bool;
  importScripts : bool
}.

(** The test of line 72:
    [!global.WebAssembly || !params.wasmFileUrl || !params.argon2FileUrl] *)
Definition use_fallback (host : Host) (params : Params) : bool :=
  negb (WebAssembly host) || not_str (wasmFileUrl params) || not_str (argon2FileUrl params).

Definition select (host : Host) (params : Params) : BackendKind :=
  if use_fallback host params then Fallback else Primary.

(** Lines 115-118. [KB] really is 1024 * 1024 in the source. *)
Definition KB : N := 1024 * 1024.
Definition MB : N := 1024 * KB.
Definition GB : N := 1024 * MB.
Definition WASM_PAGE_SIZE : N := 64 * 1024.

(** Line 120; both divisions are exact. *)
Definition totalMemory : N := ((2 * GB - 64 * KB) / 1024 / WASM_PAGE_SIZE)%N.

(** [Math.ceil(a / b)] on unsigned integers. *)
Definition Math_ceil_div (a b : N) : N :=
  (if a mod b =? 0 then a / b else a / b + 1)%N.

(** Line 121. [params.mem] is read as it is, without the default of
    [calcHash]: when it is absent the arithmetic yields [NaN], here [None]. *)
Definition initialMemory (params : Params) : option N :=
  match mem params with
  | Some m =>
      Some (N.min (N.max (Math_ceil_div (m * 1024) WASM_PAGE_SIZE) 256 + 256) totalMemory)
  | None => None
  end.

(** ** The loader as a transition system *)

(** [new WebAssembly.Memory({ initial, maximum })], lines 122-125: a
    memory that was created, both sizes in pages. *)
Record WasmMemory : Type := {
  initial : N;
  maximum : N
}.

(** The global [Module] object, as far as the wrapper sets or reads it:
    the properties of lines 127-135 and the two [xhr.onload] sets later.
    A property the object does not have is [None] ([wasmBinary]: it is
    [null], or not there, until the binary has arrived). [postRun] holds
    what its closure captured: the promise it resolves and the [params]
    it hashes. *)
Record ModuleObj : Type := {
  wasmBinary : bool;
  wasmJSMethod : option string;
  asmjsCodeFile : option string;
  wasmBinaryFile : option string;
  wasmMemory : option WasmMemory;
  TOTAL_MEMORY : option N;
  postRun : option (nat * Params)
}.

(** Modelled from the spec: the fallback script [argon2-asm.min.js] is
    not under src/. It is the engine compiled to the portable format
    together with its glue code; [calcHash] reaches the engine through
    the global [Module], so the script that has run has defined that
    object. The object it defines has none of the properties of lines
    127-135. *)
Definition glue_Module : ModuleObj :=
  {| wasmBinary := false;
     wasmJSMethod := None;
     asmjsCodeFile := None;
     wasmBinaryFile := None;
     wasmMemory := None;
     TOTAL_MEMORY := None;
     postRun := None |}.

(** What [new WebAssembly.Memory] throws when [initial] is [NaN]: a
    [TypeError]. The wording of its message is the host's. *)
Definition Memory_TypeError : Value :=
  VTypedErr "TypeError" "WebAssembly.Memory(): Property 'initial' is not a number".

(** A callback waiting in [setTimeout(..., 10)]. *)
Inductive Timer : Type :=
| Retry (k : nat) (params : Params)     (* line 93 *)
| Calc (k : nat) (params : Params).     (* line 106 *)

(** What a caller chained on [loadArgon2WrapperPromise]. *)
Inductive Reaction : Type :=
| ThenCalc (k : nat) (params : Params)  (* lines 105-110 *)
| CatchOnly (k : nat).                  (* lines 158-160 *)

Inductive PromiseState : Type :=
| Pending (reactions : list Reaction)
| Fulfilled
| Rejected (reason : Value).

(** A [loadScript] whose script has neither loaded nor failed yet. *)
Inductive ScriptReq : Type :=
| WrapperScript (src : option string)
| FallbackScript (src : option string) (k : nat) (params : Params).

(** How a promise returned by [argon2.hash] was settled. *)
Inductive Settlement : Type :=
| Resolved (v : Value)
| RejectedWith (e : Value).

(** Observable effects, kept as a ghost trace. A [CalcHashCall] records
    whether [global.Module] existed and whether the loaded flag was set
    when [calcHash] was entered. *)
Inductive Effect : Type :=
| Fetch (url : option string)
| ScriptLoad (backend : BackendKind) (src : option string)
| CalcHashCall (k : nat) (backend : BackendKind) (module_exists fully_loaded : bool).

(** The module-level variables of the wrapper, the callbacks the host
    holds for it, and the promises it has returned ([None]: pending). *)
Record State : Type := {
  global_Module : option ModuleObj;
  globalModuleIsFullyLoaded : bool;
  loadArgon2WrapperPromise : option PromiseState;
  xhrs : list (nat * Params);
  scripts : list ScriptReq;
  timers : list Timer;
  promises : list (option Settlement);
  arena : Arena;
  trace : list Effect
}.

Definition empty_arena : Arena :=
  {| HEAP8 := []; brk := 8; live := []; ops := [] |}.

Definition initial_state : State :=
  {| global_Module := None;
     globalModuleIsFullyLoaded := false;
     loadArgon2WrapperPromise := None;
     xhrs := [];
     scripts := [];
     timers := [];
     promises := [];
     arena := empty_arena;
     trace := [] |}.

(** What the host and the engine glue can do next. *)
Inductive Event : Type :=
| Hash (params : Params)                (* a caller invokes argon2.hash *)
| TimerFires                            (* the oldest timer runs *)
| XhrOnload (i : nat)
| XhrOnerror (i : nat)
| ScriptOnload (i : nat)
| ScriptOnerror (i : nat) (error : Value)
| PostRun.                              (* the glue calls Module.postRun *)

Section Loader.

Variable host : Host.
Variable E : Engine.

Definition set_Module (M : option ModuleObj) (st : State) : State :=
  {| global_Module := M;
     globalModuleIsFullyLoaded := globalModuleIsFullyLoaded st;
     loadArgon2WrapperPromise := loadArgon2WrapperPromise st;
     xhrs := xhrs st; scripts := scripts st; timers := timers st;
     promises := promises st; arena := arena st; trace := trace st |}.

Definition set_loaded (b : bool) (st : State) : State :=
  {| global_Module := global_Module st;
     globalModuleIsFullyLoaded := b;
     loadArgon2WrapperPromise := loadArgon2WrapperPromise st;
     xhrs := xhrs st; scripts := scripts st; timers := timers st;
     promises := promises st; arena := arena st; trace := trace st |}.

Definition set_wrapper (w : option PromiseState) (st : State) : State :=
  {| global_Module := global_Module st;
     globalModuleIsFullyLoaded := globalModuleIsFullyLoaded st;
     loadArgon2WrapperPromise := w;
     xhrs := xhrs st; scripts := scripts st; timers := timers st;
     promises := promises st; arena := arena st; trace := trace st |}.

Definition set_xhrs (l : list (nat * Params)) (st : State) : State :=
  {| global_Module := global_Module st;
     globalModuleIsFullyLoaded := globalModuleIsFullyLoaded st;
     loadArgon2WrapperPromise := loadArgon2WrapperPromise st;
     xhrs := l; scripts := scripts st; timers := timers st;
     promises := promises st; arena := arena st; trace := trace st |}.

Definition set_scripts (l : list ScriptReq) (st : State) : State :=
  {| global_Module := global_Module st;
     globalModuleIsFullyLoaded := globalModuleIsFullyLoaded st;
     loadArgon2WrapperPromise := loadArgon2WrapperPromise st;
     xhrs := xhrs st; scripts := l; timers := timers st;
     promises := promises st; arena := arena st; trace := trace st |}.

Definition set_timers (l : list Timer) (st : State) : State :=
  {| global_Module := global_Module st;
     globalModuleIsFullyLoaded := globalModuleIsFullyLoaded st;
     loadArgon2WrapperPromise := loadArgon2WrapperPromise st;
     xhrs := xhrs st; scripts := scripts st; timers := l;
     promises := promises st; arena := arena st; trace := trace st |}.

Definition set_promises (l : list (option Settlement)) (st : State) : State :=
  {| global_Module := global_Module st;
     globalModuleIsFullyLoaded := globalModuleIsFullyLoaded st;
     loadArgon2WrapperPromise := loadArgon2WrapperPromise st;
     xhrs := xhrs st; scripts := scripts st; timers := timers st;
     promises := l; arena := arena st; trace := trace st |}.

Definition set_arena (a : Arena) (st : State) : State :=
  {| global_Module := global_Module st;
     globalModuleIsFullyLoaded := globalModuleIsFullyLoaded st;
     loadArgon2WrapperPromise := loadArgon2WrapperPromise st;
     xhrs := xhrs st; scripts := scripts st; timers := timers st;
     promises := promises st; arena := a; trace := trace st |}.

Definition emit (e : Effect) (st : State) : State :=
  {| global_Module := global_Module st;
     globalModuleIsFullyLoaded := globalModuleIsFullyLoaded st;
     loadArgon2WrapperPromise := loadArgon2WrapperPromise st;
     xhrs := xhrs st; scripts := scripts st; timers := timers st;
     promises := promises st; arena := arena st; trace := trace st ++ [e] |}.

(** Replace the [k]-th element of a list, if there is one. *)
Fixpoint set_nth {A : Type} (k : nat) (x : A) (l : list A) : list A :=
  match l, k with
  | [], _ => []
  | _ :: l', O => x :: l'
  | y :: l', S k' => y :: set_nth k' x l'
  end.

(** Drop the [i]-th element of a list. *)
Fixpoint drop_nth {A : Type} (i : nat) (l : list A) : list A :=
  match l, i with
  | [], _ => []
  | _ :: l', O => l'
  | y :: l', S i' => y :: drop_nth i' l'
  end.

(** [resolve(v)] or [reject(e)] of promise [k]: only the first
    settlement of a promise counts. *)
Definition settle (k : nat) (s : Settlement) (st : State) : State :=
  match nth_error (promises st) k with
  | Some None => set_promises (set_nth k (Some s) (promises st)) st
  | _ => st
  end.

Definition module_exists (st : State) : bool :=
  match global_Module st with
  | Some _ => true
  | None => false
  end.

(** [global.Module.wasmJSMethod === 'native-wasm'] *)
Definition native_method (M : ModuleObj) : bool :=
  match wasmJSMethod M with
  | Some method => String.eqb method "native-wasm"
  | None => false
  end.

Definition is_native_wasm (st : State) : bool :=
  match global_Module st with
  | Some M => native_method M
  | None => false
  end.

(** Entering [calcHash(params)] for promise [k]. *)
Definition run_calcHash (k : nat) (backend : BackendKind) (params : Params)
           (st : State) : Completion Value * State :=
  let st1 := emit (CalcHashCall k backend (module_exists st)
                                (globalModuleIsFullyLoaded st)) st in
  let '(c, a) := calcHash E params (arena st1) in
  (c, set_arena a st1).

(** [resolve(calcHash(params))] in a timer or in [postRun] (lines 106
    and 148): when [calcHash] throws, nothing catches the exception and
    [resolve] is never reached. *)
Definition resolve_calcHash (k : nat) (params : Params) (st : State) : State :=
  match run_calcHash k Primary params st with
  | (Normal v, st') => settle k (Resolved v) st'
  | (Throw _, st') => st'
  end.

(** The [.then] and [.catch] of lines 74-79 once the script has loaded:
    an exception of [calcHash] is caught by the same [.catch] that
    reports loading errors. *)
Definition fallback_calcHash (k : nat) (params : Params) (st : State) : State :=
  match run_calcHash k Fallback params st with
  | (Normal v, st') => settle k (Resolved v) st'
  | (Throw error, st') =>
      settle k (RejectedWith
                  (VError ("Error loading argon2-asm.min.js: " ++ toString error))) st'
  end.

(** The reason [loadScript] rejects with (lines 28 and 34). *)
Definition loadScript_reason (error : Value) : Value :=
  if importScripts host then error
  else VStr ("Error loading script: " ++ toString error).

(** [reject("Error loading argon2.min.js (WASM already loaded): " + error)] *)
Definition reject_wrapper (k : nat) (error : Value) (st : State) : State :=
  settle k (RejectedWith
              (VStr ("Error loading argon2.min.js (WASM already loaded): "
                       ++ toString error))) st.

Definition on_fulfilled (r : Reaction) (st : State) : State :=
  match r with
  | ThenCalc k params => set_timers (timers st ++ [Calc k params]) st
  | CatchOnly _ => st
  end.

Definition on_rejected (error : Value) (r : Reaction) (st : State) : State :=
  match r with
  | ThenCalc k _ => reject_wrapper k error st
  | CatchOnly k => reject_wrapper k error st
  end.

(** Chaining a reaction on [loadArgon2WrapperPromise]: it waits while
    the promise is pending and runs at once when it is settled. *)
Definition chain (r : Reaction) (st : State) : State :=
  match loadArgon2WrapperPromise st with
  | Some (Pending rs) => set_wrapper (Some (Pending (rs ++ [r]))) st
  | Some Fulfilled => on_fulfilled r st
  | Some (Rejected error) => on_rejected error r st
  | None => st
  end.

Definition req_src (req : ScriptReq) : option string :=
  match req with
  | WrapperScript src => src
  | FallbackScript src _ _ => src
  end.

(** [loadScript(src)], lines 21-38: the script starts to load, by
    [importScripts] or by a script element, and the promise returned is
    settled when the host reports how that went. [req] records what the
    caller made wait for it. *)
Definition loadScript (backend : BackendKind) (req : ScriptReq) (st : State) : State :=
  emit (ScriptLoad backend (req_src req)) (set_scripts (scripts st ++ [req]) st).

(** [if (!loadArgon2WrapperPromise)
       loadArgon2WrapperPromise = loadScript(params.argon2FileUrl)] *)
Definition ensure_wrapper (params : Params) (st : State) : State :=
  match loadArgon2WrapperPromise st with
  | Some _ => st
  | None =>
      loadScript Primary (WrapperScript (argon2FileUrl params))
                 (set_wrapper (Some (Pending [])) st)
  end.

(** Lines 114-165: size the memory, create [global.Module] and send the
    request for the wasm binary. When [initialMemory] is [NaN],
    [new WebAssembly.Memory] (line 122) throws inside the executor of the
    promise: the promise is rejected with what was thrown, and the lines
    after it, the module object and the request among them, do not run. *)
Definition instantiate (k : nat) (params : Params) (st : State) : State :=
  match initialMemory params with
  | None => settle k (RejectedWith Memory_TypeError) st
  | Some initialMemory =>
      let wasmMemory := {| initial := initialMemory; maximum := totalMemory |} in
      let M := {| wasmBinary := false;
                  wasmJSMethod := Some "native-wasm";
                  asmjsCodeFile := asmFileUrl params;
                  wasmBinaryFile := wasmFileUrl params;
                  wasmMemory := Some wasmMemory;
                  TOTAL_MEMORY := Some (initialMemory * WASM_PAGE_SIZE)%N;
                  postRun := None |} in
      emit (Fetch (wasmFileUrl params))
        (set_xhrs (xhrs st ++ [(k, params)]) (set_Module (Some M) st))
  end.

(** The body of [argon2Hash(params)] (lines 69-167), settling promise
    [k]. The retry of line 93 passes the settlement of the promise it
    gets on to its own [resolve] and [reject], so it runs the body again
    for the same [k]. *)
Definition argon2Hash (params : Params) (k : nat) (st : State) : State :=
  if use_fallback host params then
    loadScript Fallback (FallbackScript (asmFileUrl params) k params) st
  else if module_exists st && negb (globalModuleIsFullyLoaded st) then
    set_timers (timers st ++ [Retry k params]) st
  else if module_exists st && is_native_wasm st && globalModuleIsFullyLoaded st then
    chain (ThenCalc k params) (ensure_wrapper params st)
  else
    instantiate k params st.

(** [xhr.onload], lines 140-161. *)
Definition xhr_onload (k : nat) (params : Params) (st : State) : State :=
  match global_Module st with
  | Some M =>
      let M' := {| wasmBinary := true;
                   wasmJSMethod := wasmJSMethod M;
                   asmjsCodeFile := asmjsCodeFile M;
                   wasmBinaryFile := wasmBinaryFile M;
                   wasmMemory := wasmMemory M;
                   TOTAL_MEMORY := TOTAL_MEMORY M;
                   postRun := Some (k, params) |} in
      chain (CatchOnly k) (ensure_wrapper params (set_Module (Some M') st))
  | None => st
  end.

(** [xhr.onerror], lines 162-164. *)
Definition xhr_onerror (k : nat) (params : Params) (st : State) : State :=
  settle k (RejectedWith (VStr ("Error loading wasm " ++ toString (cacheKey params)))) st.

(** The fallback script has run: the global [Module] is defined. An
    object that is already there is the one the script uses. *)
Definition define_Module (st : State) : State :=
  match global_Module st with
  | Some _ => st
  | None => set_Module (Some glue_Module) st
  end.

(** A script has loaded. For the wrapper script the promise
    [loadArgon2WrapperPromise] is fulfilled and its reactions run; for a
    fallback script, which has defined [Module] by then, the [.then] of
    line 74 runs [calcHash]. *)
Definition script_onload (req : ScriptReq) (st : State) : State :=
  match req with
  | WrapperScript _ =>
      match loadArgon2WrapperPromise st with
      | Some (Pending rs) =>
          fold_left (fun s r => on_fulfilled r s) rs (set_wrapper (Some Fulfilled) st)
      | _ => st
      end
  | FallbackScript _ k params => fallback_calcHash k params (define_Module st)
  end.

Definition script_onerror (req : ScriptReq) (error : Value) (st : State) : State :=
  let reason := loadScript_reason error in
  match req with
  | WrapperScript _ =>
      match loadArgon2WrapperPromise st with
      | Some (Pending rs) =>
          fold_left (fun s r => on_rejected reason r s) rs
                    (set_wrapper (Some (Rejected reason)) st)
      | _ => st
      end
  | FallbackScript _ k _ =>
      settle k (RejectedWith
                  (VError ("Error loading argon2-asm.min.js: " ++ toString reason))) st
  end.

(** The glue's completion signal: it calls [Module.postRun] once, when
    the wrapper script runs, be it while the script executes, before its
    load is reported, or later. Lines 142-149. What else the loaded
    scripts do with the global object is not under src/ and is left
    out. *)
Definition post_run (st : State) : State :=
  match global_Module st, loadArgon2WrapperPromise st with
  | Some M, Some (Pending _) | Some M, Some Fulfilled =>
      match postRun M with
      | Some (k, params) =>
          let M' := {| wasmBinary := wasmBinary M;
                       wasmJSMethod := wasmJSMethod M;
                       asmjsCodeFile := asmjsCodeFile M;
                       wasmBinaryFile := wasmBinaryFile M;
                       wasmMemory := wasmMemory M;
                       TOTAL_MEMORY := TOTAL_MEMORY M;
                       postRun := None |} in
          resolve_calcHash k params (set_loaded true (set_Module (Some M') st))
      | None => st
      end
  | _, _ => st
  end.

Definition timer_fires (st : State) : State :=
  match timers st with
  | [] => st
  | Retry k params :: rest => argon2Hash params k (set_timers rest st)
  | Calc k params :: rest => resolve_calcHash k params (set_timers rest st)
  end.

(** One turn of the event loop. An event that is not enabled (no such
    request in flight, no timer waiting) changes nothing. *)
Definition step (st : State) (ev : Event) : State :=
  match ev with
  | Hash params =>
      argon2Hash params (List.length (promises st))
                 (set_promises (promises st ++ [None]) st)
  | TimerFires => timer_fires st
  | XhrOnload i =>
      match nth_error (xhrs st) i with
      | Some (k, params) => xhr_onload k params (set_xhrs (drop_nth i (xhrs st)) st)
      | None => st
      end
  | XhrOnerror i =>
      match nth_error (xhrs st) i with
      | Some (k, params) => xhr_onerror k params (set_xhrs (drop_nth i (xhrs st)) st)
      | None => st
      end
  | ScriptOnload i =>
      match nth_error (scripts st) i with
      | Some req => script_onload req (set_scripts (drop_nth i (scripts st)) st)
      | None => st
      end
  | ScriptOnerror i error =>
      match nth_error (scripts st) i with
      | Some req => script_onerror req error (set_scripts (drop_nth i (scripts st)) st)
      | None => st
      end
  | PostRun => post_run st
  end.

(** A schedule: the events in the order the host delivers them. *)
Definition run (st : State) (evs : list Event) : State :=
  fold_left step evs st.

(** The promise returned to the [k]-th caller. *)
Definition outcome (st : State) (k : nat) : option Settlement :=
  match nth_error (promises st) k with
  | Some s => s
  | None => None
  end.

End Loader.

(** ** Vocabulary of the statements about [calcHash] *)

(** The addresses of the four buffers of a call, the arena as the engine
    finds it, and the arguments it is called with. *)
Definition buffers (params : Params) (a0 : Arena) : nat * nat * nat * nat :=
  fst (alloc_buffers params a0).

Definition arena_at_call (params : Params) (a0 : Arena) : Arena :=
  snd (alloc_buffers params a0).

Definition engine_call (params : Params) (a0 : Arena) : HashCall :=
  let '(pwd, salt, hash, encoded) := buffers params a0 in
  hash_call params pwd salt hash encoded.

(** How the engine's hashing function completes for this call, and the
    memory it leaves. *)
Definition engine_completion (E : Engine) (params : Params) (a0 : Arena) : Completion Z :=
  fst (_argon2_hash E (engine_call params a0) (HEAP8 (arena_at_call params a0))).

Definition heap_after (E : Engine) (params : Params) (a0 : Arena) : list Z :=
  snd (_argon2_hash E (engine_call params a0) (HEAP8 (arena_at_call params a0))).

(** The [len] bytes of memory at address [ptr]. *)
Definition region (heap : list Z) (ptr len : nat) : list Z :=
  firstn len (skipn ptr heap).

(** The [n] bytes read at [ptr], [ptr + 1], ...; a read outside the memory
    counts as 0, as it does in the loop of [calcHash]. *)
Definition output_bytes (heap : list Z) (ptr n : nat) : list Z :=
  map (fun i => nth (ptr + i) heap 0) (seq 0 n).

(** The bytes [allocateArray] stores for an input, and the block
    [allocate] writes for an array: the array, or one zero byte when it
    is empty. *)
Definition input_bytes (x : Input) : list Z :=
  match x with
  | IBytes bytes => bytes
  | IStr units => intArrayFromString units
  end.

Definition padded (arr : list Z) : list Z :=
  arr ++ repeat 0 (Nat.max (List.length arr) 1 - List.length arr).

(** The blocks the four allocations of a call write, and where. *)
Definition block_pwd (params : Params) : list Z := padded (input_bytes (pass params)).
Definition block_salt (params : Params) : list Z := padded (input_bytes (salt params)).
Definition block_hash (params : Params) : list Z :=
  padded (new_Array (num_or (hashLen params) 24)).
Definition block_encoded : list Z := padded (new_Array 512).

Definition ptr_pwd (a0 : Arena) : nat := brk a0.
Definition ptr_salt (params : Params) (a0 : Arena) : nat :=
  ptr_pwd a0 + List.length (block_pwd params).
Definition ptr_hash (params : Params) (a0 : Arena) : nat :=
  ptr_salt params a0 + List.length (block_salt params).
Definition ptr_encoded (params : Params) (a0 : Arena) : nat :=
  ptr_hash params a0 + List.length (block_hash params).

(** The value of an optional property: the one supplied, or the default. *)
Definition default (d : N) (x : option N) : N :=
  match x with
  | Some v => v
  | None => d
  end.

(** Lowercase hexadecimal, as the specification words it: two digits per
    byte, most significant first. *)
Definition hex_digit (d : Z) : ascii :=
  nth (Z.to_nat d) (list_ascii_of_string "0123456789abcdef") "0"%char.

Fixpoint hex_encode (bytes : list Z) : string :=
  match bytes with
  | [] => ""
  | b :: rest => String (hex_digit (b / 16)) (String (hex_digit (b mod 16)) (hex_encode rest))
  end.

(** The code's hexadecimal form of one byte agrees with the specification's. *)
Definition hex_agrees (u : Z) : bool :=
  String.eqb (slice_last 2 ("0" ++ toString16 u)) (hex_encode [u]).

(** The engine's side of the interface: what it throws is a truthy value,
    and every non-zero status it returns has a non-empty message in the
    memory it leaves. *)
Record Engine_conforms (E : Engine) : Prop := {
  throws_truthy :
    forall call heap e heap',
      _argon2_hash E call heap = (Throw e, heap') -> truthy e = true;
  message_nonempty :
    forall call heap r heap',
      _argon2_hash E call heap = (Normal r, heap') -> r <> 0 ->
      exists ptr, _argon2_error_message E (VNum r) heap' = Normal ptr
                  /\ Pointer_stringify heap' ptr <> ""
}.

(** The two secrets of a call and where the engine is told to find them. *)
Inductive Secret : Type := Password | Salt.

Definition secret_of (which : Secret) (params : Params) : Input :=
  match which with
  | Password => pass params
  | Salt => salt params
  end.

Definition secret_ptr (which : Secret) (call : HashCall) : nat :=
  match which with
  | Password => arg_pwd call
  | Salt => arg_salt call
  end.

Definition secret_len (which : Secret) (call : HashCall) : N :=
  match which with
  | Password => arg_pwdlen call
  | Salt => arg_saltlen call
  end.

(** Two engines that differ at most in how [_free] behaves. *)
Definition same_computation (E E' : Engine) : Prop :=
  _argon2_hash E = _argon2_hash E' /\ _argon2_error_message E = _argon2_error_message E'.

(** [calcHash] hands [call] and the memory [heap] to the engine's hashing
    function. This is said through what can be observed of a call, for
    every engine it may be run with: what the function does when it is
    applied to [call] and [heap] decides how [calcHash] completes. An
    exception it throws there is the message of the error thrown; status
    0 there makes the call return the bytes found at [arg_hash call] in
    the memory the function leaves; another status there is the code of
    the error object. *)
Definition hashing_function_receives (params : Params) (a0 : Arena)
           (call : HashCall) (heap : list Z) : Prop :=
  forall E : Engine,
    match _argon2_hash E call heap with
    | (Throw e, _) =>
        truthy e = true ->
        fst (calcHash E params a0) = Throw (VHashError e VUndefined)
    | (Normal r, heap') =>
        if r =? 0 then
          exists hashHex encoded,
            fst (calcHash E params a0)
            = Normal (VHashResult
                        (map to_uint8
                             (output_bytes heap' (arg_hash call)
                                           (N.to_nat (arg_hashlen call))))
                        hashHex encoded)
        else
          exists message,
            fst (calcHash E params a0) = Normal (VHashError message (VNum r))
            \/ fst (calcHash E params a0) = Throw (VHashError message (VNum r))
    end.

(** ** Fixtures *)

Module Fixture.

(** An engine that succeeds: it writes four hash bytes and a short
    encoded text. *)
Definition ok : Engine :=
  {| _argon2_hash := fun c h =>
       (Normal 0,
        write_bytes (arg_hash c) [1; -1; 0x7f; -128]
                    (write_bytes (arg_encoded c) [36; 97; 114; 0] h));
     _argon2_error_message := fun _ _ => Normal 0%nat;
     _free_throws := fun _ => false |}.

(** An engine that reports status 1; its message, at address 1, reads
    "Oops". *)
Definition status1 : Engine :=
  {| _argon2_hash := fun c h => (Normal 1, write_bytes 1 [79; 111; 112; 115; 0] h);
     _argon2_error_message := fun _ _ => Normal 1%nat;
     _free_throws := fun _ => false |}.

(** As [status1], but the message lookup throws. *)
Definition status1_no_message : Engine :=
  {| _argon2_hash := fun c h => (Normal 1, h);
     _argon2_error_message := fun _ _ => Throw (VTypedErr "TypeError" "not a function");
     _free_throws := fun _ => false |}.

(** As [ok], but [_free] throws on every address. *)
Definition ok_free_throws : Engine :=
  {| _argon2_hash := _argon2_hash ok;
     _argon2_error_message := _argon2_error_message ok;
     _free_throws := fun _ => true |}.

Definition browser : Host := {| WebAssembly := true; importScripts := false |}.
Definition old_browser : Host := {| WebAssembly := false; importScripts := false |}.

(** [{ pass: 'p', salt: [1,2,3], mem: 1024, hashLen: 4, ... }] with all
    three locators. *)
Definition params_wasm : Params :=
  {| pass := IStr [112]; salt := IBytes [1; 2; 3];
     time := None; mem := Some 1024%N; hashLen := Some 4%N;
     parallelism := None; type := None;
     asmFileUrl := Some "argon2-asm.min.js";
     wasmFileUrl := Some "argon2.wasm";
     argon2FileUrl := Some "argon2.min.js";
     cacheKey := VUndefined |}.

(** The same without [wasmFileUrl]. *)
Definition params_asm : Params :=
  {| pass := IStr [112]; salt := IBytes [1; 2; 3];
     time := None; mem := Some 1024%N; hashLen := Some 4%N;
     parallelism := None; type := None;
     asmFileUrl := Some "argon2-asm.min.js";
     wasmFileUrl := None;
     argon2FileUrl := Some "argon2.min.js";
     cacheKey := VUndefined |}.

(** As [params_wasm], without [mem]. *)
Definition params_wasm_no_mem : Params :=
  {| pass := IStr [112]; salt := IBytes [1; 2; 3];
     time := None; mem := None; hashLen := Some 4%N;
     parallelism := None; type := None;
     asmFileUrl := Some "argon2-asm.min.js";
     wasmFileUrl := Some "argon2.wasm";
     argon2FileUrl := Some "argon2.min.js";
     cacheKey := VUndefined |}.

(** A password whose second character takes two bytes (p, e acute). *)
Definition params_accent : Params :=
  {| pass := IStr [112; 233]; salt := IStr [115; 97; 108; 116];
     time := Some 2%N; mem := None; hashLen := None;
     parallelism := None; type := Some ArgonType.Argon2i;
     asmFileUrl := Some "argon2-asm.min.js";
     wasmFileUrl := None;
     argon2FileUrl := None;
     cacheKey := VUndefined |}.

End Fixture.

(** ** Vocabulary of the statements about the loader *)

(** A locator is absent when the property is [undefined] or the empty
    string, the two values [!] takes to [true]. *)
Definition locator_absent (x : option string) : Prop :=
  x = None \/ x = Some "".

(** The page count as the specification words it, with the quotient taken
    in the rationals: min(max(ceil(mem * 1024 / 65536), 256) + 256, 32767). *)
Definition spec_pages (m : N) : Z :=
  Z.min (Z.max (Qceiling (Qmake (Z.of_N m * 1024) 65536)) 256 + 256) 32767.

(** The fallback branch of [argon2Hash]: one more script load, for the
    caller's own promise. *)
Definition fallback_branch (params : Params) (k : nat) (st : State) : State :=
  loadScript Fallback (FallbackScript (asmFileUrl params) k params) st.

(** The primary branch of [argon2Hash]: defer, chain on the wrapper, or
    instantiate. *)
Definition primary_branch (params : Params) (k : nat) (st : State) : State :=
  if module_exists st && negb (globalModuleIsFullyLoaded st) then
    set_timers (timers st ++ [Retry k params]) st
  else if module_exists st && is_native_wasm st && globalModuleIsFullyLoaded st then
    chain (ThenCalc k params) (ensure_wrapper params st)
  else
    instantiate k params st.

(** Counting the effects of a run. *)
Definition is_fetch (e : Effect) : bool :=
  match e with
  | Fetch _ => true
  | _ => false
  end.

Definition is_load (b : BackendKind) (e : Effect) : bool :=
  match e, b with
  | ScriptLoad Primary _, Primary => true
  | ScriptLoad Fallback _, Fallback => true
  | _, _ => false
  end.

Definition fetches (st : State) : nat :=
  List.length (filter is_fetch (trace st)).

Definition script_loads (b : BackendKind) (st : State) : nat :=
  List.length (filter (is_load b) (trace st)).

(** The callers of a schedule that take the given backend. *)
Definition takes (host : Host) (b : BackendKind) (ev : Event) : bool :=
  match ev, b with
  | Hash params, Primary => negb (use_fallback host params)
  | Hash params, Fallback => use_fallback host params
  | _, _ => false
  end.

Definition calls (host : Host) (b : BackendKind) (evs : list Event) : nat :=
  List.length (filter (takes host b) evs).

(** The wasm binary has been received ([Module.wasmBinary] is set). *)
Definition binary_arrived (st : State) : bool :=
  match global_Module st with
  | Some M => wasmBinary M
  | None => false
  end.

Definition wrapper_exists (st : State) : bool :=
  match loadArgon2WrapperPromise st with
  | Some _ => true
  | None => false
  end.

(** The timers a fulfilled wrapper promise starts. *)
Definition calc_timers (rs : list Reaction) : list Timer :=
  flat_map (fun r => match r with
                     | ThenCalc k' params => [Calc k' params]
                     | CatchOnly _ => []
                     end) rs.

(** What holds of a waiting timer: a retry re-enters the primary branch
    and waits for a module that exists; a hash computation waits only
    once the engine is flagged loaded. *)
Definition timer_ok (host : Host) (st : State) (t : Timer) : Prop :=
  match t with
  | Retry _ params => use_fallback host params = false /\ module_exists st = true
  | Calc _ _ => globalModuleIsFullyLoaded st = true
  end.

(** What holds of a reaction waiting on the wrapper promise: a hash
    computation was chained only once the engine was flagged loaded. *)
Definition reaction_ok (st : State) (r : Reaction) : Prop :=
  match r with
  | ThenCalc _ _ => globalModuleIsFullyLoaded st = true
  | CatchOnly _ => True
  end.

(** The invariant of the loader, for a state reached after [np] callers
    took the primary branch and [nf] the fallback branch. The module
    object is the one of lines 127-135, created together with the one
    fetch, or the one a fallback script defined. *)
Record Inv (host : Host) (st : State) (np nf : nat) : Prop := {
  inv_fetch : fetches st = if is_native_wasm st then 1%nat else 0%nat;
  inv_native_calls : is_native_wasm st = true -> (0 < np)%nat;
  inv_glue :
    global_Module st = None \/ is_native_wasm st = true
    \/ global_Module st = Some glue_Module;
  inv_xhrs : xhrs st <> [] -> is_native_wasm st = true;
  inv_wrapper_loads :
    script_loads Primary st = if wrapper_exists st then 1%nat else 0%nat;
  inv_wrapper_binary : wrapper_exists st = binary_arrived st;
  inv_loaded : globalModuleIsFullyLoaded st = true -> wrapper_exists st = true;
  inv_timers : Forall (timer_ok host st) (timers st);
  inv_reactions :
    forall rs, loadArgon2WrapperPromise st = Some (Pending rs) ->
               Forall (reaction_ok st) rs;
  inv_fallback_loads : script_loads Fallback st = nf;
  inv_calc :
    forall k m f, In (CalcHashCall k Primary m f) (trace st) -> m = true /\ f = true
}.

(** ** Promises nobody will settle *)

(** The loading has failed for good: the module object is there, it is
    not flagged loaded, no fetch is in flight, and either [postRun] was
    never installed or the wrapper script failed to load. *)
Definition dead (st : State) : Prop :=
  module_exists st = true
  /\ globalModuleIsFullyLoaded st = false
  /\ xhrs st = []
  /\ ((forall M, global_Module st = Some M -> postRun M = None)
      \/ (exists error, loadArgon2WrapperPromise st = Some (Rejected error))).

Definition timer_target (t : Timer) : nat :=
  match t with
  | Retry k _ => k
  | Calc k _ => k
  end.

Definition reaction_target (r : Reaction) : nat :=
  match r with
  | ThenCalc k _ => k
  | CatchOnly k => k
  end.

Definition req_target (r : ScriptReq) : option nat :=
  match r with
  | WrapperScript _ => None
  | FallbackScript _ k _ => Some k
  end.

(** A timer that does not lead to a settlement of promise [k]: it belongs
    to another promise, or it is a retry of the primary branch for [k]. *)
Definition timer_quiet (host : Host) (k : nat) (t : Timer) : Prop :=
  match t with
  | Calc k' _ => k' <> k
  | Retry k' params => k' = k -> use_fallback host params = false
  end.

(** Promise [k] is pending and no callback the host holds would settle
    it: at most retries are waiting for it, and then the loading is dead. *)
Record waiting (host : Host) (st : State) (k : nat) : Prop := {
  w_pending : nth_error (promises st) k = Some None;
  w_timers : Forall (timer_quiet host k) (timers st);
  w_retry : (exists params, In (Retry k params) (timers st)) -> dead st;
  w_xhrs : Forall (fun x => fst x <> k) (xhrs st);
  w_scripts : Forall (fun r => req_target r <> Some k) (scripts st);
  w_reactions :
    forall rs, loadArgon2WrapperPromise st = Some (Pending rs) ->
               Forall (fun r => reaction_target r <> k) rs;
  w_postRun :
    forall M k' params, global_Module st = Some M ->
                        postRun M = Some (k', params) -> k' <> k
}.

Module Schedule.

(** Two callers on a host without WebAssembly. *)
Definition two_fallback_callers : list Event :=
  [Hash Fixture.params_asm; Hash Fixture.params_asm].

(** A primary caller, then a caller without [wasmFileUrl], whose script
    loads while the wasm binary is still being fetched. *)
Definition fallback_during_load : list Event :=
  [Hash Fixture.params_wasm; Hash Fixture.params_asm; ScriptOnload 0].

(** Two primary callers; the fetch of the wasm binary fails. *)
Definition fetch_fails : list Event :=
  [Hash Fixture.params_wasm; Hash Fixture.params_wasm; XhrOnerror 0].

(** One primary caller; the binary arrives but the wrapper script fails
    to load; a second caller arrives afterwards. *)
Definition link_fails : list Event :=
  [Hash Fixture.params_wasm; XhrOnload 0; ScriptOnerror 0 (VObject "Event");
   Hash Fixture.params_wasm].

(** One primary caller, everything loads, and the engine is run. *)
Definition primary_loaded : list Event :=
  [Hash Fixture.params_wasm; XhrOnload 0; ScriptOnload 0; PostRun].

(** Two primary callers, everything loads, both timers have fired. *)
Definition two_primary_callers : list Event :=
  [Hash Fixture.params_wasm; Hash Fixture.params_wasm; TimerFires;
   XhrOnload 0; ScriptOnload 0; PostRun; TimerFires; TimerFires].

(** One fallback caller whose script loads. *)
Definition fallback_loaded : list Event :=
  [Hash Fixture.params_asm; ScriptOnload 0].

End Schedule.

(** ** Further vocabulary for [calcHash] *)

(** The releases that go through in
    [try { _free(p1); _free(p2); ... } catch (e) { }]: those before the
    first one that throws. *)
Fixpoint release_prefix (E : Engine) (ptrs : list nat) : list nat :=
  match ptrs with
  | [] => []
  | p :: rest => if _free_throws E p then [] else p :: release_prefix E rest
  end.

(** The characters [0-9a-f]. *)
Definition is_lower_hex (c : ascii) : bool :=
  let n := nat_of_ascii c in
  ((48 <=? n) && (n <=? 57) || (97 <=? n) && (n <=? 102))%nat.

(** The value of a hexadecimal digit, and the bytes a hexadecimal text
    stands for; used to read [hashHex] back. *)
Definition hex_value (c : ascii) : Z :=
  let n := Z.of_nat (nat_of_ascii c) in
  if n <=? 57 then n - 48 else n - 87.

Fixpoint hex_decode (s : string) : list Z :=
  match s with
  | String c1 (String c2 rest) => (hex_value c1 * 16 + hex_value c2) :: hex_decode rest
  | _ => []
  end.

(** Two one-character passwords, e acute and c cedilla, with the salt
    "salt". *)
Definition Fixture_params_e_acute : Params :=
  {| pass := IStr [233]; salt := IStr [115; 97; 108; 116];
     time := None; mem := None; hashLen := None;
     parallelism := None; type := None;
     asmFileUrl := Some "argon2-asm.min.js";
     wasmFileUrl := None; argon2FileUrl := None;
     cacheKey := VUndefined |}.

Definition Fixture_params_c_cedilla : Params :=
  {| pass := IStr [231]; salt := IStr [115; 97; 108; 116];
     time := None; mem := None; hashLen := None;
     parallelism := None; type := None;
     asmFileUrl := Some "argon2-asm.min.js";
     wasmFileUrl := None; argon2FileUrl := None;
     cacheKey := VUndefined |}.

(** Equality of two call records and of two memories, as tests. *)
Definition HashCall_eqb (c c' : HashCall) : bool :=
  (arg_tCost c =? arg_tCost c')%N && (arg_mCost c =? arg_mCost c')%N
  && (arg_parallelism c =? arg_parallelism c')%N
  && (arg_pwd c =? arg_pwd c')%nat && (arg_pwdlen c =? arg_pwdlen c')%N
  && (arg_salt c =? arg_salt c')%nat && (arg_saltlen c =? arg_saltlen c')%N
  && (arg_hash c =? arg_hash c')%nat && (arg_hashlen c =? arg_hashlen c')%N
  && (arg_encoded c =? arg_encoded c')%nat
  && (arg_encodedlen c =? arg_encodedlen c')%N
  && (arg_argon2Type c =? arg_argon2Type c')%N
  && (arg_version c =? arg_version c')%N.

Fixpoint heap_eqb (h h' : list Z) : bool :=
  match h, h' with
  | [], [] => true
  | x :: t, y :: t' => (x =? y) && heap_eqb t t'
  | _, _ => false
  end.

(** An engine that throws "here" when its hashing function is applied to
    [call] in the memory [heap], and "elsewhere" when it is applied to
    anything else. *)
Definition probe (call : HashCall) (heap : list Z) : Engine :=
  {| _argon2_hash := fun c h =>
       if HashCall_eqb c call && heap_eqb h heap then (Throw (VStr "here"), h)
       else (Throw (VStr "elsewhere"), h);
     _argon2_error_message := fun _ _ => Normal 0%nat;
     _free_throws := fun _ => false |}.

(** ** Further vocabulary for the loader *)

(** The callers of a schedule. *)
Definition is_hash_event (ev : Event) : bool :=
  match ev with
  | Hash _ => true
  | _ => false
  end.

Definition callers (evs : list Event) : nat :=
  List.length (filter is_hash_event evs).

(** The reasons a promise of [argon2Hash] is rejected with: what line 122
    throws, and the texts of lines 163, 109 and 159, and 78. *)
Definition is_loading_error (e : Value) : Prop :=
  e = Memory_TypeError
  \/ (exists key, e = VStr ("Error loading wasm " ++ key))
  \/ (exists error,
        e = VStr ("Error loading argon2.min.js (WASM already loaded): " ++ error))
  \/ (exists error, e = VError ("Error loading argon2-asm.min.js: " ++ error)).

(** What [calcHash] can return: the success result, or an error object
    whose message is falsy. *)
Definition is_returned_result (v : Value) : Prop :=
  (exists hash hashHex encoded, v = VHashResult hash hashHex encoded)
  \/ (exists message code, v = VHashError message code /\ truthy message = false).

Definition settlement_ok (s : Settlement) : Prop :=
  match s with
  | Resolved v => is_returned_result v
  | RejectedWith e => is_loading_error e
  end.

Definition promise_ok (o : option Settlement) : Prop :=
  match o with
  | Some s => settlement_ok s
  | None => True
  end.

Definition promises_ok (st : State) : Prop := Forall promise_ok (promises st).

(** A promise that is no longer pending. *)
Definition is_settled (w : PromiseState) : bool :=
  match w with
  | Pending _ => false
  | _ => true
  end.

(** Two module objects that describe the same engine: only [wasmBinary]
    and [postRun] may differ. *)
Definition same_setup (M M' : ModuleObj) : Prop :=
  wasmJSMethod M' = wasmJSMethod M
  /\ asmjsCodeFile M' = asmjsCodeFile M
  /\ wasmBinaryFile M' = wasmBinaryFile M
  /\ wasmMemory M' = wasmMemory M
  /\ TOTAL_MEMORY M' = TOTAL_MEMORY M.

(** From [st] to [st'] nothing the loader has established is taken
    back: the module object, the loaded flag, the wrapper promise and its
    settlement, the settlements of the callers' promises, and the effects
    that were observed. *)
Definition never_reset (st st' : State) : Prop :=
  (module_exists st = true -> module_exists st' = true)
  /\ (forall M, global_Module st = Some M -> is_native_wasm st = true ->
        exists M', global_Module st' = Some M' /\ same_setup M M')
  /\ (globalModuleIsFullyLoaded st = true -> globalModuleIsFullyLoaded st' = true)
  /\ (wrapper_exists st = true -> wrapper_exists st' = true)
  /\ (forall w, loadArgon2WrapperPromise st = Some w -> is_settled w = true ->
        loadArgon2WrapperPromise st' = Some w)
  /\ (forall k s, outcome st k = Some s -> outcome st' k = Some s)
  /\ (exists t, trace st' = trace st ++ t).

(** * Properties of the runtime surface *)

Section Utf8.

Lemma utf8_bytes_length_pos u : (1 <= List.length (utf8_bytes u))%nat.
Proof.
  unfold utf8_bytes.
  destruct (u <=? 0x7F); [simpl; lia|].
  destruct (u <=? 0x7FF); [simpl; lia|].
  destruct (u <=? 0xFFFF); simpl; lia.
Qed.

Lemma utf8_bytes_length_wide u :
  0x7F < u -> (2 <= List.length (utf8_bytes u))%nat.
Proof.
  intros Hu. unfold utf8_bytes.
  destruct (Z.leb_spec u 0x7F); [lia|].
  destruct (u <=? 0x7FF); [simpl; lia|].
  destruct (u <=? 0xFFFF); simpl; lia.
Qed.

Lemma join_surrogates_astral u u1 : 0xFFFF < join_surrogates u u1.
Proof.
  unfold join_surrogates.
  set (a := 0x10000 + Z.shiftl (Z.land u 0x3FF) 10).
  set (b := Z.land u1 0x3FF).
  assert (Ha : 0x10000 <= a).
  { subst a. assert (0 <= Z.shiftl (Z.land u 0x3FF) 10); [|lia].
    apply Z.shiftl_nonneg, Z.land_nonneg. right; lia. }
  assert (Hb : 0 <= b) by (subst b; apply Z.land_nonneg; right; lia).
  destruct (Z.le_gt_cases (Z.lor a b) 0xFFFF) as [Hle|]; [exfalso|lia].
  assert (Hl : Z.log2 (Z.lor a b) <= Z.log2 0xFFFF) by (apply Z.log2_le_mono; exact Hle).
  rewrite Z.log2_lor in Hl by lia.
  assert (Z.log2 0x10000 <= Z.log2 a) by (apply Z.log2_le_mono; exact Ha).
  change (Z.log2 0x10000) with 16 in *. change (Z.log2 0xFFFF) with 15 in *. lia.
Qed.

Lemma utf8_bytes_length_astral u :
  0xFFFF < u -> List.length (utf8_bytes u) = 4%nat.
Proof.
  intros Hu. unfold utf8_bytes.
  destruct (Z.leb_spec u 0x7F); [lia|].
  destruct (Z.leb_spec u 0x7FF); [lia|].
  destruct (Z.leb_spec u 0xFFFF); [lia|reflexivity].
Qed.

(** The induction follows the two-units-at-a-time recursion of the
    encoder: the statement is proved for a list and for its tail. *)
Lemma stringToUTF8_length_ge units :
  (List.length units <= List.length (stringToUTF8 units))%nat
  /\ forall u, (List.length (u :: units) <= List.length (stringToUTF8 (u :: units)))%nat.
Proof.
  induction units as [|u1 rest [IH1 IH2]].
  - split; [simpl; lia|]. intros u. simpl.
    destruct (is_surrogate u).
    + pose proof (utf8_bytes_length_pos (join_surrogates u 0)). lia.
    + rewrite List.length_app. pose proof (utf8_bytes_length_pos u). simpl. lia.
  - split; [apply IH2|]. intros u.
    change (stringToUTF8 (u :: u1 :: rest))
      with (if is_surrogate u
            then utf8_bytes (join_surrogates u u1) ++ stringToUTF8 rest
            else utf8_bytes u ++ stringToUTF8 (u1 :: rest)).
    destruct (is_surrogate u); rewrite List.length_app.
    + rewrite (utf8_bytes_length_astral _ (join_surrogates_astral u u1)).
      simpl. lia.
    + pose proof (utf8_bytes_length_pos u). specialize (IH2 u1). simpl in *. lia.
Qed.

Lemma is_surrogate_wide u : is_surrogate u = true -> 0x7F < u.
Proof. unfold is_surrogate. intros H. apply andb_prop in H. lia. Qed.

Lemma stringToUTF8_length_gt units :
  (Exists (fun u => 0x7F < u) units ->
   (List.length units < List.length (stringToUTF8 units))%nat)
  /\ forall u, Exists (fun u => 0x7F < u) (u :: units) ->
               (List.length (u :: units) < List.length (stringToUTF8 (u :: units)))%nat.
Proof.
  induction units as [|u1 rest [IH1 IH2]].
  - split; [intros H; inversion H|]. intros u H.
    inversion H as [? ? Hu|? ? Hn]; [|inversion Hn]. subst. simpl.
    destruct (is_surrogate u).
    + rewrite (utf8_bytes_length_astral _ (join_surrogates_astral u 0)). lia.
    + rewrite List.length_app. pose proof (utf8_bytes_length_wide u Hu). simpl. lia.
  - split; [apply IH2|]. intros u H.
    change (stringToUTF8 (u :: u1 :: rest))
      with (if is_surrogate u
            then utf8_bytes (join_surrogates u u1) ++ stringToUTF8 rest
            else utf8_bytes u ++ stringToUTF8 (u1 :: rest)).
    destruct (is_surrogate u) eqn:Hs; rewrite List.length_app.
    + rewrite (utf8_bytes_length_astral _ (join_surrogates_astral u u1)).
      pose proof (proj1 (stringToUTF8_length_ge rest)). simpl. lia.
    + inversion H as [? ? Hu|? ? Hn]; subst.
      * pose proof (utf8_bytes_length_wide u Hu).
        pose proof (proj2 (stringToUTF8_length_ge rest) u1). simpl in *. lia.
      * pose proof (utf8_bytes_length_pos u).
        specialize (IH2 u1 Hn). simpl in *. lia.
Qed.

End Utf8.

Section Memory.

Lemma write_bytes_length p data m :
  (p + List.length data <= List.length (write_bytes p data m))%nat.
Proof.
  unfold write_bytes. rewrite !List.length_app, List.length_firstn, List.length_app,
    List.repeat_length. lia.
Qed.

(** What was stored at [p] is read back from [p]. *)
Lemma read_own_write p data m :
  firstn (List.length data) (skipn p (write_bytes p data m)) = data.
Proof.
  unfold write_bytes.
  assert (Hlen : List.length (firstn p (m ++ repeat 0 (p - List.length m))) = p).
  { rewrite List.length_firstn, List.length_app, List.repeat_length. lia. }
  rewrite List.skipn_app, Hlen, Nat.sub_diag. simpl.
  rewrite List.skipn_all2 by lia. simpl.
  rewrite List.firstn_app, Nat.sub_diag, List.firstn_all. simpl.
  apply List.app_nil_r.
Qed.

Lemma read_window_firstn {A} n p q (l : list A) :
  (p + n <= q)%nat -> firstn n (skipn p (firstn q l)) = firstn n (skipn p l).
Proof.
  intros H. rewrite List.skipn_firstn_comm, List.firstn_firstn.
  replace (Nat.min n (q - p)) with n by lia. reflexivity.
Qed.

Lemma read_window_app {A} n p (l pad : list A) :
  (p + n <= List.length l)%nat -> firstn n (skipn p (l ++ pad)) = firstn n (skipn p l).
Proof.
  intros H. rewrite List.skipn_app, List.firstn_app, List.length_skipn.
  replace (n - (List.length l - p))%nat with 0%nat by lia.
  simpl. apply List.app_nil_r.
Qed.

(** A store at [p'] leaves the bytes below [p'] as they were. *)
Lemma read_below_write p n p' data m :
  (p + n <= p')%nat -> (p + n <= List.length m)%nat ->
  firstn n (skipn p (write_bytes p' data m)) = firstn n (skipn p m).
Proof.
  intros Hp Hm. unfold write_bytes.
  rewrite read_window_app.
  - rewrite read_window_firstn by exact Hp. apply read_window_app, Hm.
  - rewrite List.length_firstn, List.length_app, List.repeat_length. lia.
Qed.

End Memory.

Lemma padded_length arr : List.length (padded arr) = Nat.max (List.length arr) 1.
Proof. unfold padded. rewrite List.length_app, List.repeat_length. lia. Qed.

Lemma allocate_eq arr a :
  allocate arr a =
    (brk a,
     {| HEAP8 := write_bytes (brk a) (padded arr) (HEAP8 a);
        brk := brk a + List.length (padded arr);
        live := (brk a, List.length (padded arr)) :: live a;
        ops := ops a ++ [Alloc (brk a) (List.length (padded arr))] |}).
Proof. unfold allocate. rewrite padded_length. reflexivity. Qed.

Lemma allocateArray_eq x a : allocateArray x a = allocate (input_bytes x) a.
Proof. destruct x; reflexivity. Qed.

Lemma padded_nonempty arr : (1 <= List.length (padded arr))%nat.
Proof. rewrite padded_length. lia. Qed.

Section CalcHash.

Variable E : Engine.
Variable params : Params.
Variable a0 : Arena.

Local Abbreviation d1 := (block_pwd params).
Local Abbreviation d2 := (block_salt params).
Local Abbreviation d3 := (block_hash params).
Local Abbreviation d4 := block_encoded.
Local Abbreviation p1 := (ptr_pwd a0).
Local Abbreviation p2 := (ptr_salt params a0).
Local Abbreviation p3 := (ptr_hash params a0).
Local Abbreviation p4 := (ptr_encoded params a0).

Lemma alloc_buffers_eq :
  alloc_buffers params a0 =
    ((p1, p2, p3, p4),
     {| HEAP8 := write_bytes p4 d4 (write_bytes p3 d3 (write_bytes p2 d2
                   (write_bytes p1 d1 (HEAP8 a0))));
        brk := p4 + List.length d4;
        live := (p4, List.length d4) :: (p3, List.length d3)
                  :: (p2, List.length d2) :: (p1, List.length d1) :: live a0;
        ops := ops a0 ++ [Alloc p1 (List.length d1); Alloc p2 (List.length d2);
                          Alloc p3 (List.length d3); Alloc p4 (List.length d4)] |}).
Proof.
  unfold alloc_buffers.
  repeat (rewrite ?allocateArray_eq, allocate_eq; cbn [brk HEAP8 live ops]).
  rewrite <- !List.app_assoc. reflexivity.
Qed.

Lemma buffers_increasing : (p1 < p2 < p3 /\ p3 < p4)%nat.
Proof.
  unfold ptr_encoded, ptr_hash, ptr_salt, block_pwd, block_salt, block_hash.
  pose proof (padded_nonempty (input_bytes (pass params))).
  pose proof (padded_nonempty (input_bytes (salt params))).
  pose proof (padded_nonempty (new_Array (num_or (hashLen params) 24))).
  lia.
Qed.

Lemma buffers_eq : buffers params a0 = (p1, p2, p3, p4).
Proof. unfold buffers. rewrite alloc_buffers_eq. reflexivity. Qed.

Lemma engine_call_eq : engine_call params a0 = hash_call params p1 p2 p3 p4.
Proof. unfold engine_call. rewrite buffers_eq. reflexivity. Qed.

Lemma heap_at_call_eq :
  HEAP8 (arena_at_call params a0) =
    write_bytes p4 d4 (write_bytes p3 d3 (write_bytes p2 d2 (write_bytes p1 d1 (HEAP8 a0)))).
Proof. unfold arena_at_call. rewrite alloc_buffers_eq. reflexivity. Qed.

(** [calcHash] in terms of the engine's completion for the call. *)
Lemma calcHash_eq :
  calcHash E params a0 =
    let '(res, err, heap) :=
      invoke E (engine_call params a0) (HEAP8 (arena_at_call params a0)) in
    let '(result, err') :=
      decode E res err heap p3 (num_or (hashLen params) 24) p4 in
    let a5 := free_each E [p1; p2; p3; p4] (set_heap heap (arena_at_call params a0)) in
    if truthy err' then (Throw result, a5) else (Normal result, a5).
Proof.
  unfold calcHash, arena_at_call. rewrite engine_call_eq.
  rewrite alloc_buffers_eq. reflexivity.
Qed.

(** The password block is still in place when the engine is called. *)
Lemma region_pwd : region (HEAP8 (arena_at_call params a0)) p1 (List.length d1) = d1.
Proof.
  pose proof buffers_increasing as Hinc.
  rewrite heap_at_call_eq. unfold region.
  rewrite read_below_write.
  - rewrite read_below_write.
    + rewrite read_below_write.
      * apply read_own_write.
      * unfold ptr_salt. lia.
      * apply write_bytes_length.
    + unfold ptr_salt in *. lia.
    + pose proof (write_bytes_length p2 d2 (write_bytes p1 d1 (HEAP8 a0))).
      unfold ptr_salt in *. lia.
  - unfold ptr_salt in *. lia.
  - pose proof (write_bytes_length p3 d3
                  (write_bytes p2 d2 (write_bytes p1 d1 (HEAP8 a0)))).
    unfold ptr_salt in *. lia.
Qed.

Lemma region_salt : region (HEAP8 (arena_at_call params a0)) p2 (List.length d2) = d2.
Proof.
  pose proof buffers_increasing as Hinc.
  rewrite heap_at_call_eq. unfold region.
  rewrite read_below_write.
  - rewrite read_below_write.
    + apply read_own_write.
    + unfold ptr_hash. lia.
    + apply write_bytes_length.
  - unfold ptr_hash in *. lia.
  - pose proof (write_bytes_length p3 d3
                  (write_bytes p2 d2 (write_bytes p1 d1 (HEAP8 a0)))).
    unfold ptr_hash in *. lia.
Qed.

(** The completion of a call does not depend on how [_free] behaves. *)
Lemma calcHash_completion_free (E' : Engine) :
  same_computation E E' ->
  fst (calcHash E' params a0) = fst (calcHash E params a0).
Proof.
  intros [Hh Hm]. unfold calcHash.
  destruct (alloc_buffers params a0) as [[[[pwd slt] hash] encoded] a4].
  unfold invoke, decode, resolve_message. rewrite Hh, Hm.
  destruct (_argon2_hash E' _ _) as [[r|e] heap].
  - destruct (is_zero (VNum r) && negb (truthy VUndefined)).
    + destruct (read_hash _ _ _). reflexivity.
    + match goal with |- context [truthy ?x] => destruct (truthy x) end; reflexivity.
  - destruct (is_zero VUndefined && negb (truthy e)).
    + destruct (read_hash _ _ _). destruct (truthy e); reflexivity.
    + match goal with |- context [truthy ?x] => destruct (truthy x) eqn:? end;
        reflexivity.
Qed.

End CalcHash.

(** ** The hexadecimal form *)

Lemma string_app_nil_r (s : string) : (s ++ "")%string = s.
Proof. induction s as [|c s IH]; simpl; [reflexivity|]. now rewrite IH. Qed.

Lemma string_app_assoc (s t u : string) : ((s ++ t) ++ u = s ++ (t ++ u))%string.
Proof. induction s as [|c s IH]; simpl; [reflexivity|]. now rewrite IH. Qed.

Lemma hex_encode_app x y : hex_encode (x ++ y) = (hex_encode x ++ hex_encode y)%string.
Proof. induction x as [|b x IH]; simpl; [reflexivity|]. now rewrite IH. Qed.

Lemma hex_encode_length bytes :
  String.length (hex_encode bytes) = (2 * List.length bytes)%nat.
Proof. induction bytes as [|b rest IH]; simpl; [reflexivity|]. rewrite IH. lia. Qed.

Lemma to_uint8_range b : 0 <= to_uint8 b < 256.
Proof. unfold to_uint8. apply Z.mod_pos_bound. lia. Qed.

Lemma mask_is_to_uint8 b : Z.land 0xFF b = to_uint8 b.
Proof.
  unfold to_uint8. rewrite Z.land_comm.
  change 0xFF with (Z.ones 8). rewrite Z.land_ones by lia. reflexivity.
Qed.

Lemma hex_agrees_all : forallb hex_agrees (map Z.of_nat (seq 0 256)) = true.
Proof. vm_compute. reflexivity. Qed.

Lemma hex_byte_spec byte : hex_byte byte = hex_encode [to_uint8 byte].
Proof.
  unfold hex_byte. rewrite mask_is_to_uint8.
  pose proof (to_uint8_range byte) as Hr.
  set (u := to_uint8 byte) in *.
  apply String.eqb_eq.
  pose proof hex_agrees_all as Hall. rewrite forallb_forall in Hall.
  apply (Hall u).
  replace u with (Z.of_nat (Z.to_nat u)) by lia.
  apply in_map, in_seq. lia.
Qed.

Lemma read_hash_fold heap hash l acc s :
  fold_left
    (fun acc i =>
       let byte := nth (hash + i) heap 0 in
       (fst acc ++ [to_uint8 byte], (snd acc ++ hex_byte byte)%string))
    l (acc, s)
  = (acc ++ map (fun i => to_uint8 (nth (hash + i) heap 0)) l,
     (s ++ hex_encode (map (fun i => to_uint8 (nth (hash + i) heap 0)) l))%string).
Proof.
  revert acc s. induction l as [|i l IH]; intros acc s; simpl.
  - now rewrite List.app_nil_r, string_app_nil_r.
  - rewrite IH. cbn [fst snd]. rewrite <- List.app_assoc. simpl.
    rewrite hex_byte_spec. simpl.
    rewrite string_app_assoc. reflexivity.
Qed.

Lemma read_hash_eq heap hash hashlen :
  read_hash heap hash hashlen =
    (map to_uint8 (output_bytes heap hash (N.to_nat hashlen)),
     hex_encode (map to_uint8 (output_bytes heap hash (N.to_nat hashlen)))).
Proof.
  unfold read_hash, output_bytes. rewrite read_hash_fold. simpl.
  now rewrite List.map_map.
Qed.

(** * The hash invoker *)

Lemma num_or_default lo d x :
  (1 <= lo)%N -> at_least lo x -> num_or x d = default d x.
Proof.
  intros Hlo Hx. destruct x as [n|]; simpl in *; [|reflexivity].
  destruct (N.eqb_spec n 0); [lia|reflexivity].
Qed.

Lemma num_or_type x : num_or x ArgonType.Argon2d = default ArgonType.Argon2d x.
Proof.
  destruct x as [n|]; simpl; [|reflexivity].
  destruct (N.eqb_spec n 0); [subst; reflexivity|reflexivity].
Qed.

(** The engine is consulted at [engine_call], in the memory of that
    moment, and nowhere else: two engines that agree there give the same
    call. *)
Lemma calcHash_only_engine_call (E E' : Engine) params a0 :
  _argon2_hash E (engine_call params a0) (HEAP8 (arena_at_call params a0))
  = _argon2_hash E' (engine_call params a0) (HEAP8 (arena_at_call params a0)) ->
  _argon2_error_message E = _argon2_error_message E' ->
  _free_throws E = _free_throws E' ->
  calcHash E params a0 = calcHash E' params a0.
Proof.
  intros Hh Hm Hf. rewrite !calcHash_eq. unfold invoke. rewrite Hh.
  destruct (_argon2_hash E' _ _) as [[r|e] heap];
    unfold decode, resolve_message; rewrite Hm;
    repeat match goal with
           | |- context [free_each E ?l ?a] =>
               replace (free_each E l a) with (free_each E' l a)
                 by (simpl; rewrite Hf; reflexivity)
           end; reflexivity.
Qed.

(** ** How a call completes *)

Lemma is_zero_iff r : is_zero (VNum r) = true <-> r = 0.
Proof. destruct r; simpl; split; intros H; congruence. Qed.

Section Outcome.

Variable E : Engine.
Variable params : Params.
Variable a0 : Arena.

Local Abbreviation hash := (ptr_hash params a0).
Local Abbreviation encoded := (ptr_encoded params a0).
Local Abbreviation hashlen := (num_or (hashLen params) 24).
Local Abbreviation hashArr :=
  (map to_uint8 (output_bytes (heap_after E params a0) hash (N.to_nat hashlen))).
Local Abbreviation code :=
  (match engine_completion E params a0 with
   | Normal r => VNum r
   | Throw _ => VUndefined
   end).

(** Status 0 and no exception: the success result is returned. *)
Lemma calcHash_success :
  engine_completion E params a0 = Normal 0 ->
  fst (calcHash E params a0)
  = Normal (VHashResult hashArr (hex_encode hashArr)
                        (Pointer_stringify (heap_after E params a0) encoded)).
Proof.
  unfold engine_completion, heap_after. intros Hc. rewrite calcHash_eq. unfold invoke.
  destruct (_argon2_hash E _ _) as [c heap]. simpl in Hc. subst c.
  unfold decode. simpl. rewrite read_hash_eq. reflexivity.
Qed.

(** Another status: what the call completes with is decided by the
    message lookup. *)
Lemma calcHash_status r :
  engine_completion E params a0 = Normal r -> r <> 0 ->
  fst (calcHash E params a0)
  = match _argon2_error_message E (VNum r) (heap_after E params a0) with
    | Normal ptr =>
        let msg := Pointer_stringify (heap_after E params a0) ptr in
        if String.eqb msg "" then Normal (VHashError (VStr msg) (VNum r))
        else Throw (VHashError (VStr msg) (VNum r))
    | Throw _ => Normal (VHashError VUndefined (VNum r))
    end.
Proof.
  unfold engine_completion, heap_after. intros Hc Hr. rewrite calcHash_eq. unfold invoke.
  destruct (_argon2_hash E _ _) as [c heap]. simpl in Hc. subst c.
  unfold decode, resolve_message.
  assert (Hz : is_zero (VNum r) = false).
  { destruct (is_zero (VNum r)) eqn:Hz; [|reflexivity]. apply is_zero_iff in Hz. tauto. }
  rewrite Hz. cbn [andb truthy negb snd].
  destruct (_argon2_error_message E (VNum r) heap) as [ptr|e]; cbn [truthy].
  - cbv zeta. destruct (String.eqb _ ""); reflexivity.
  - reflexivity.
Qed.

(** An exception: it becomes the message of the error, when it is truthy. *)
Lemma calcHash_exception e :
  engine_completion E params a0 = Throw e -> truthy e = true ->
  fst (calcHash E params a0) = Throw (VHashError e VUndefined).
Proof.
  unfold engine_completion. intros Hc He. rewrite calcHash_eq. unfold invoke.
  destruct (_argon2_hash E _ _) as [c heap]. simpl in Hc. subst c.
  unfold decode, resolve_message. cbn [is_zero andb]. rewrite He.
  cbn [negb]. rewrite He. reflexivity.
Qed.

(** What is thrown is an error object with a truthy message. *)
Lemma calcHash_throw_shape (v : Value) :
  fst (calcHash E params a0) = Throw v ->
  exists message, v = VHashError message code /\ truthy message = true.
Proof.
  rewrite calcHash_eq. unfold engine_completion, invoke.
  destruct (_argon2_hash E _ _) as [[r|e] heap]; cbn [fst]; unfold decode.
  - destruct (is_zero (VNum r)); cbn [andb truthy negb].
    + destruct (read_hash _ _ _). cbn. intros H; discriminate.
    + match goal with |- context [truthy ?x] => destruct (truthy x) eqn:Ht end;
        cbn [fst]; intros H; inversion H; subst. eauto.
  - cbn [is_zero andb].
    match goal with |- context [truthy ?x] => destruct (truthy x) eqn:Ht end;
      cbn [fst]; intros H; inversion H; subst. eauto.
Qed.

(** What is returned is the success result, after status 0, or an error
    object with a falsy message. *)
Lemma calcHash_normal_shape (v : Value) :
  fst (calcHash E params a0) = Normal v ->
  (exists hash' hashHex encoded',
     v = VHashResult hash' hashHex encoded' /\ engine_completion E params a0 = Normal 0)
  \/ (exists message,
        v = VHashError message code /\ truthy message = false
        /\ engine_completion E params a0 <> Normal 0).
Proof.
  rewrite calcHash_eq. unfold engine_completion, invoke.
  destruct (_argon2_hash E _ _) as [[r|e] heap]; cbn [fst]; unfold decode.
  - destruct (is_zero (VNum r)) eqn:Hz; cbn [andb truthy negb].
    + destruct (read_hash _ _ _). cbn. intros H; inversion H; subst.
      apply is_zero_iff in Hz. subst. left. eauto 6.
    + match goal with |- context [truthy ?x] => destruct (truthy x) eqn:Ht end;
        cbn [fst]; intros H; inversion H; subst. right. eexists.
      split; [reflexivity|]. split; [exact Ht|].
      intros Heq. inversion Heq; subst. discriminate.
  - cbn [is_zero andb].
    match goal with |- context [truthy ?x] => destruct (truthy x) eqn:Ht end;
      cbn [fst]; intros H; inversion H; subst. right. eexists.
    split; [reflexivity|]. split; [exact Ht|discriminate].
Qed.

Lemma engine_completion_eq c heap :
  _argon2_hash E (engine_call params a0) (HEAP8 (arena_at_call params a0)) = (c, heap) ->
  engine_completion E params a0 = c /\ heap_after E params a0 = heap.
Proof. unfold engine_completion, heap_after. intros ->. split; reflexivity. Qed.

End Outcome.

(** The call and the memory of the vocabulary are those the hashing
    function receives. *)
Lemma receives_engine_call (params : Params) (a0 : Arena) :
  hashing_function_receives params a0 (engine_call params a0)
                            (HEAP8 (arena_at_call params a0)).
Proof.
  intros E.
  destruct (_argon2_hash E (engine_call params a0) (HEAP8 (arena_at_call params a0)))
    as [[r|e] heap] eqn:Hcall;
    destruct (engine_completion_eq E params a0 _ _ Hcall) as [Hc Hheap].
  - destruct (Z.eqb_spec r 0) as [->|Hr].
    + rewrite (calcHash_success E params a0 Hc), Hheap, engine_call_eq.
      cbn [hash_call arg_hash arg_hashlen]. eauto.
    + rewrite (calcHash_status E params a0 r Hc Hr).
      destruct (_argon2_error_message E (VNum r) _) as [ptr|x]; cbv zeta.
      * destruct (String.eqb _ ""); eauto.
      * eauto.
  - intros He. exact (calcHash_exception E params a0 e Hc He).
Qed.

(** ** The arguments of the engine call *)


Lemma Fixture_params_accent_valid : HashParams_valid Fixture.params_accent.
Proof.
  constructor; simpl; try exact I; try lia.
Defined.


(** An explicit 0 is outside the data model: [x || d] takes the default. *)
Example explicit_zero_takes_default :
  num_or (Some 0%N) 24 = 24%N /\ num_or (Some 0%N) 1 = 1%N.
Proof. split; reflexivity. Qed.

(** ** Lengths of string inputs *)

Lemma intArrayFromString_length units :
  List.length (intArrayFromString units) = S (List.length (stringToUTF8 units)).
Proof. unfold intArrayFromString. rewrite List.length_app. simpl. lia. Qed.

Lemma padded_string units : padded (intArrayFromString units) = intArrayFromString units.
Proof.
  unfold padded. rewrite intArrayFromString_length.
  replace (Nat.max _ 1 - _)%nat with 0%nat by lia. apply List.app_nil_r.
Qed.

(** C10. For a password or salt given as a string, the length the
    engine's hashing function receives is the number of UTF-16 code units
    of the string, while the bytes it finds at the address it receives
    are the UTF-8 encoding of the string (with the terminator); so when
    the string has a character outside the one-byte range, the length
    received is smaller than the number of bytes the encoding takes. The
    call and the memory spoken of are those [calcHash] applies the
    hashing function to, whatever the engine. *)
Theorem C10_length_counts_code_units (params : Params) (a0 : Arena)
        (which : Secret) (units : list Z)
        (Hstr : secret_of which params = IStr units) :
  exists (call : HashCall) (heap : list Z),
    hashing_function_receives params a0 call heap
    /\ secret_len which call = N.of_nat (List.length units)
    /\ region heap (secret_ptr which call) (List.length (intArrayFromString units))
       = stringToUTF8 units ++ [0]
    /\ (Exists (fun u => 0x7F < u) units ->
        (N.to_nat (secret_len which call) < List.length (stringToUTF8 units))%nat).
Proof.
  exists (engine_call params a0), (HEAP8 (arena_at_call params a0)).
  split; [apply receives_engine_call|].
  rewrite engine_call_eq.
  assert (Hlen : secret_len which (hash_call params (ptr_pwd a0) (ptr_salt params a0)
                   (ptr_hash params a0) (ptr_encoded params a0))
                 = N.of_nat (List.length units)).
  { destruct which; simpl in *; rewrite Hstr; reflexivity. }
  split; [exact Hlen|]. split.
  - fold (intArrayFromString units). rewrite <- (padded_string units) at 1 2.
    destruct which; simpl in Hstr; cbn [secret_ptr hash_call arg_pwd arg_salt].
    + pose proof (region_pwd params a0) as H. unfold block_pwd in H.
      rewrite Hstr in H. exact H.
    + pose proof (region_salt params a0) as H. unfold block_salt in H.
      rewrite Hstr in H. exact H.
  - intros Hwide. rewrite Hlen, Nnat.Nat2N.id.
    apply (proj1 (stringToUTF8_length_gt units)), Hwide.
Qed.

Lemma C10_witness :
  secret_of Password Fixture.params_accent = IStr [112; 233]
  /\ exists (call : HashCall) (heap : list Z),
       hashing_function_receives Fixture.params_accent empty_arena call heap
       /\ secret_len Password call = 2%N
       /\ region heap (secret_ptr Password call) 4 = [112; 195; 169; 0]
       /\ (N.to_nat (secret_len Password call) < 3)%nat.
Proof.
  split; [reflexivity|].
  destruct (C10_length_counts_code_units Fixture.params_accent empty_arena
              Password [112; 233] eq_refl)
    as (call & heap & Hr & Hlen & Hbytes & Hlt).
  exists call, heap.
  split; [exact Hr|]. split; [exact Hlen|]. split; [exact Hbytes|].
  apply Hlt. apply Exists_cons_tl, Exists_cons_hd. lia.
Defined.

(** ** Release of the scratch buffers *)

Section Release.

Variable E : Engine.
Variable params : Params.
Variable a0 : Arena.

Local Abbreviation p1 := (ptr_pwd a0).
Local Abbreviation p2 := (ptr_salt params a0).
Local Abbreviation p3 := (ptr_hash params a0).
Local Abbreviation p4 := (ptr_encoded params a0).

Lemma free_each_ops (ptrs : list nat) (a : Arena) :
  ops (free_each E ptrs a) = ops a ++ map Free (release_prefix E ptrs).
Proof.
  revert a. induction ptrs as [|p rest IH]; intros a; simpl.
  - now rewrite List.app_nil_r.
  - destruct (_free_throws E p); simpl.
    + now rewrite List.app_nil_r.
    + rewrite IH. simpl. now rewrite <- List.app_assoc.
Qed.

Lemma release_prefix_is_prefix (ptrs : list nat) :
  exists rest, ptrs = release_prefix E ptrs ++ rest
               /\ match rest with
                  | [] => True
                  | p :: _ => _free_throws E p = true
                  end.
Proof.
  induction ptrs as [|p ptrs (rest & Heq & Hhd)]; simpl.
  - exists []. split; [reflexivity|exact I].
  - destruct (_free_throws E p) eqn:Hp.
    + exists (p :: ptrs). split; [reflexivity|exact Hp].
    + exists rest. split; [simpl; congruence|exact Hhd].
Qed.

Lemma release_prefix_all (ptrs : list nat) :
  (forall p, In p ptrs -> _free_throws E p = false) -> release_prefix E ptrs = ptrs.
Proof.
  induction ptrs as [|p ptrs IH]; intros H; simpl; [reflexivity|].
  rewrite (H p (or_introl eq_refl)). f_equal. apply IH. intros q Hq. apply H. now right.
Qed.

Lemma free_each_live l1 l2 l3 l4 L heap b o :
  let a := {| HEAP8 := heap; brk := b;
              live := (p4, l4) :: (p3, l3) :: (p2, l2) :: (p1, l1) :: L;
              ops := o |} in
  List.length (live (free_each E [p1; p2; p3; p4] a))
  = (List.length L + 4 - List.length (release_prefix E [p1; p2; p3; p4]))%nat
  /\ (release_prefix E [p1; p2; p3; p4] = [p1; p2; p3; p4] ->
      live (free_each E [p1; p2; p3; p4] a) = L).
Proof.
  pose proof (buffers_increasing params a0) as Hinc.
  cbv zeta. cbn [free_each release_prefix].
  destruct (_free_throws E p1); [|destruct (_free_throws E p2);
    [|destruct (_free_throws E p3); [|destruct (_free_throws E p4)]]];
    cbn [_free live remove_alloc List.length];
    repeat match goal with
           | |- context [Nat.eqb ?x ?y] =>
               destruct (Nat.eqb_spec x y); try lia; cbn [remove_alloc List.length]
           end;
    (split; [lia|intros H; try discriminate H; reflexivity]).
Qed.

(** The arena a call leaves: the releases of the guarded block applied
    to the arena of the engine call, with the memory the engine left. *)
Lemma calcHash_leaves :
  snd (calcHash E params a0)
  = free_each E [p1; p2; p3; p4]
              (set_heap (heap_after E params a0) (arena_at_call params a0)).
Proof.
  rewrite calcHash_eq. unfold heap_after, invoke.
  destruct (_argon2_hash E _ _) as [[r|e] heap]; cbn [snd];
    destruct (decode E _ _ heap _ _ _) as [result err'];
    destruct (truthy err'); reflexivity.
Qed.

End Release.



(** When no release throws, the arena is left as it was found. *)
Example all_released_when_no_release_throws :
  live (snd (calcHash Fixture.ok Fixture.params_wasm empty_arena)) = []
  /\ ops (snd (calcHash Fixture.ok Fixture.params_wasm empty_arena))
     = [Alloc 8 2; Alloc 10 3; Alloc 13 4; Alloc 17 512;
        Free 8; Free 10; Free 13; Free 17].
Proof. vm_compute. split; reflexivity. Qed.

(** ** Success and failure of a call *)



Lemma Fixture_ok_conforms : Engine_conforms Fixture.ok.
Proof.
  constructor.
  - intros call heap e heap' H. simpl in H. discriminate.
  - intros call heap r heap' H Hr. simpl in H. congruence.
Defined.

Lemma skipn_write_bytes p data m :
  skipn p (write_bytes p data m) = data ++ skipn (p + List.length data) m.
Proof.
  unfold write_bytes.
  assert (Hlen : List.length (firstn p (m ++ repeat 0 (p - List.length m))) = p).
  { rewrite List.length_firstn, List.length_app, List.repeat_length. lia. }
  rewrite List.skipn_app, Hlen, Nat.sub_diag. simpl.
  rewrite List.skipn_all2 by lia. reflexivity.
Qed.

Lemma Fixture_status1_conforms : Engine_conforms Fixture.status1.
Proof.
  constructor.
  - intros call heap e heap' H. simpl in H. discriminate.
  - intros call heap r heap' H Hr. simpl in H. inversion H; subst.
    exists 1%nat. split; [reflexivity|].
    unfold Pointer_stringify. rewrite skipn_write_bytes. simpl. discriminate.
Defined.

(** The engine that succeeds: the result of the call. *)
Example ok_is_returned :
  fst (calcHash Fixture.ok Fixture.params_wasm empty_arena)
  = Normal (VHashResult [1; 255; 127; 128] "01ff7f80" "$ar").
Proof. vm_compute. reflexivity. Qed.

(** An engine with status 1 and the message "Oops": the call throws
    [{ message: "Oops", code: 1 }]. *)
Example status1_is_thrown :
  fst (calcHash Fixture.status1 Fixture.params_wasm empty_arena)
  = Throw (VHashError (VStr "Oops") (VNum 1)).
Proof. vm_compute. reflexivity. Qed.

(** * Memory sizing *)

Lemma totalMemory_pages : totalMemory = 32767%N.
Proof. vm_compute. reflexivity. Qed.

(** The divisions of line 120 leave no remainder, and the ceiling is 2 GiB
    less one page of 64 KiB. *)
Lemma totalMemory_exact :
  ((2 * GB - 64 * KB) mod 1024 = 0
   /\ ((2 * GB - 64 * KB) / 1024) mod WASM_PAGE_SIZE = 0
   /\ totalMemory * WASM_PAGE_SIZE = 2 * 1024 * 1024 * 1024 - 64 * 1024)%N.
Proof. vm_compute. repeat split; reflexivity. Qed.

(** [Math_ceil_div] is the ceiling of the rational quotient. *)
Lemma Math_ceil_div_ceiling (a : N) (b : positive) :
  Z.of_N (Math_ceil_div a (Npos b)) = Qceiling (Qmake (Z.of_N a) b).
Proof.
  unfold Math_ceil_div, Qceiling, Qfloor, Qopp. cbn [Qnum Qden].
  destruct (N.eqb_spec (a mod Npos b) 0) as [Hz|Hnz];
    zify; Z.to_euclidean_division_equations; nia.
Qed.

Lemma initialMemory_spec (params : Params) (m : N) :
  mem params = Some m ->
  exists pages, initialMemory params = Some pages /\ Z.of_N pages = spec_pages m.
Proof.
  intros Hm. unfold initialMemory. rewrite Hm. eexists. split; [reflexivity|].
  unfold spec_pages. rewrite totalMemory_pages.
  rewrite N2Z.inj_min, N2Z.inj_add, N2Z.inj_max.
  change WASM_PAGE_SIZE with (Npos 65536).
  rewrite Math_ceil_div_ceiling, N2Z.inj_mul. reflexivity.
Qed.

Lemma nth_error_set_nth_same {A} k (x : A) l :
  (k < List.length l)%nat -> nth_error (set_nth k x l) k = Some x.
Proof.
  revert k. induction l as [|y l IH]; intros [|k] Hk; simpl in *; try lia;
    [reflexivity|]. apply IH. lia.
Qed.

(** Settling a pending promise settles it. *)
Lemma outcome_settle st k s :
  nth_error (promises st) k = Some None -> outcome (settle k s st) k = Some s.
Proof.
  intros Hp. unfold settle, outcome. rewrite Hp. cbn.
  rewrite nth_error_set_nth_same; [reflexivity|].
  apply nth_error_Some. congruence.
Qed.

Lemma new_promise_pending (ps : list (option Settlement)) :
  nth_error (ps ++ [@None Settlement]) (List.length ps) = Some None.
Proof. rewrite List.nth_error_app2, Nat.sub_diag by lia. reflexivity. Qed.

(** The first primary caller reaches the lines that size the memory. *)
Lemma first_primary_call (host : Host) (E : Engine) (st : State) (params : Params) :
  select host params = Primary -> global_Module st = None ->
  step host E st (Hash params)
  = instantiate (List.length (promises st)) params
                (set_promises (promises st ++ [None]) st).
Proof.
  intros Hsel Hfirst.
  assert (Hfb : use_fallback host params = false).
  { unfold select in Hsel. destruct (use_fallback host params); congruence. }
  cbn [step]. unfold argon2Hash, module_exists. rewrite Hfb.
  cbn [global_Module set_promises]. rewrite Hfirst. reflexivity.
Qed.

(** C7 at its failing input, beside what holds otherwise. A caller takes
    the primary branch and no module object exists yet. When [mem] is
    supplied, the memory created for the engine starts at
    min(max(ceil(mem * 1024 / 65536), 256) + 256, 32767) pages of 64 KiB,
    32767 pages being 2 GiB less 64 KiB; the count never exceeds that
    ceiling, however large [mem] is, and when the ceiling does not bind it
    leaves at least 256 pages above the memory asked for. When [mem] is
    absent, a valid request whose memory cost is 1024 KiB by default, line
    121 reads [params.mem] without that default: the size is not a number,
    creating the memory throws, the caller is rejected with the
    [TypeError], and neither the module object nor the request for the
    binary is made. In [calcHash] the same [params] give the memory cost
    1024. *)
Theorem C7_initial_memory (host : Host) (E : Engine) (st : State) (params : Params)
        (Hprimary : select host params = Primary)
        (Hfirst : global_Module st = None) :
  let caller := List.length (promises st) in
  let st' := step host E st (Hash params) in
  (forall m, mem params = Some m ->
     exists (M : ModuleObj) (pages : N),
       global_Module st' = Some M
       /\ wasmMemory M = Some {| initial := pages; maximum := 32767%N |}
       /\ TOTAL_MEMORY M = Some (pages * 65536)%N
       /\ Z.of_N pages = spec_pages m
       /\ (32767 * 65536 = 2 * 1024 * 1024 * 1024 - 64 * 1024)%N
       /\ (pages <= 32767)%N
       /\ (spec_pages m < 32767 -> (m * 1024 + 256 * 65536 <= pages * 65536)%N)
       /\ trace st' = trace st ++ [Fetch (wasmFileUrl params)]
       /\ outcome st' caller = None)
  /\ (mem params = None ->
      initialMemory params = None
      /\ global_Module st' = None
      /\ xhrs st' = xhrs st
      /\ trace st' = trace st
      /\ outcome st' caller = Some (RejectedWith Memory_TypeError)
      /\ num_or (mem params) 1024 = 1024%N
      /\ spec_pages 1024 = 512).
Proof.
  cbv zeta. rewrite (first_primary_call host E st params Hprimary Hfirst).
  unfold instantiate. split.
  - intros m Hmem.
    destruct (initialMemory_spec params m Hmem) as (pages & Hpages & Hspec).
    rewrite Hpages. eexists. exists pages.
    split; [reflexivity|]. cbn [wasmMemory TOTAL_MEMORY].
    split; [now rewrite totalMemory_pages|].
    split; [reflexivity|]. split; [exact Hspec|]. split; [reflexivity|].
    unfold initialMemory in Hpages. rewrite Hmem in Hpages. inversion Hpages as [Hp].
    rewrite totalMemory_pages in *.
    split; [lia|]. split; [|split].
    + intros Hfree. rewrite <- Hspec, <- Hp in Hfree.
      unfold Math_ceil_div, WASM_PAGE_SIZE in *.
      destruct (N.eqb_spec ((m * 1024) mod (64 * 1024)) 0);
        zify; Z.to_euclidean_division_equations; lia.
    + reflexivity.
    + unfold outcome. cbn. now rewrite new_promise_pending.
  - intros Hmem. unfold initialMemory. rewrite Hmem.
    assert (Hpend : nth_error (promises (set_promises (promises st ++ [None]) st))
                              (List.length (promises st)) = Some None)
      by (cbn; apply new_promise_pending).
    split; [reflexivity|].
    split; [unfold settle; rewrite Hpend; exact Hfirst|].
    split; [unfold settle; rewrite Hpend; reflexivity|].
    split; [unfold settle; rewrite Hpend; reflexivity|].
    split; [apply outcome_settle, Hpend|].
    split; reflexivity.
Qed.

Lemma C7_witness :
  select Fixture.browser Fixture.params_wasm_no_mem = Primary
  /\ global_Module initial_state = None
  /\ mem Fixture.params_wasm_no_mem = None
  /\ global_Module (step Fixture.browser Fixture.ok initial_state
                         (Hash Fixture.params_wasm_no_mem)) = None
  /\ outcome (step Fixture.browser Fixture.ok initial_state
                    (Hash Fixture.params_wasm_no_mem)) 0
     = Some (RejectedWith Memory_TypeError).
Proof.
  split; [reflexivity|]. split; [reflexivity|]. split; [reflexivity|].
  pose proof (C7_initial_memory Fixture.browser Fixture.ok initial_state
                Fixture.params_wasm_no_mem eq_refl eq_refl) as H.
  cbv zeta in H. destruct H as [_ H].
  destruct (H eq_refl) as (_ & HM & _ & _ & Hout & _).
  split; [exact HM|exact Hout].
Defined.

(** With [mem: 1024] the same caller gets a memory of 512 pages. *)
Example supplied_mem_sizes_the_memory :
  option_map wasmMemory
    (global_Module (step Fixture.browser Fixture.ok initial_state
                         (Hash Fixture.params_wasm)))
  = Some (Some {| initial := 512%N; maximum := 32767%N |}).
Proof. vm_compute. reflexivity. Qed.

(** A request far above the ceiling is clamped to it. *)
Example initial_memory_clamped :
  initialMemory {| pass := IBytes []; salt := IBytes [];
                   time := None; mem := Some (4 * 1024 * 1024)%N; hashLen := None;
                   parallelism := None; type := None;
                   asmFileUrl := None; wasmFileUrl := None; argon2FileUrl := None;
                   cacheKey := VUndefined |}
  = Some 32767%N.
Proof. vm_compute. reflexivity. Qed.

(** * Backend selection *)

Lemma not_str_absent (x : option string) : not_str x = true <-> locator_absent x.
Proof.
  unfold locator_absent. destruct x as [s|]; simpl.
  - rewrite String.eqb_eq. split; [intros ->; now right|intros [H|H]; congruence].
  - split; [now left|reflexivity].
Qed.

(** C8. A call takes the fallback backend exactly when the host has no
    WebAssembly or one of [wasmFileUrl], [argon2FileUrl] is absent, and
    the primary backend otherwise. The choice is a function of the host
    and of [params] alone; it only decides which branch of [argon2Hash]
    runs. *)
Theorem C8_backend_selection (host : Host) (params : Params) :
  (select host params = Fallback
   <-> WebAssembly host = false
       \/ locator_absent (wasmFileUrl params)
       \/ locator_absent (argon2FileUrl params))
  /\ (select host params = Primary
      <-> ~ (WebAssembly host = false
             \/ locator_absent (wasmFileUrl params)
             \/ locator_absent (argon2FileUrl params)))
  /\ forall (k : nat) (st : State),
      argon2Hash host params k st
      = match select host params with
        | Fallback => fallback_branch params k st
        | Primary => primary_branch params k st
        end.
Proof.
  assert (Hfb : use_fallback host params = true
                <-> WebAssembly host = false
                    \/ locator_absent (wasmFileUrl params)
                    \/ locator_absent (argon2FileUrl params)).
  { unfold use_fallback. rewrite !orb_true_iff, negb_true_iff, !not_str_absent. tauto. }
  unfold select. split; [|split].
  - destruct (use_fallback host params); split; intros H; try congruence.
    + now apply Hfb.
    + apply Hfb in H. discriminate.
  - destruct (use_fallback host params); split; intros H; try congruence.
    + exfalso. apply H, Hfb. reflexivity.
    + intros H'. apply Hfb in H'. discriminate.
  - intros k st. unfold argon2Hash, fallback_branch, primary_branch.
    destruct (use_fallback host params); reflexivity.
Qed.

(** The third scenario of the specification: no [wasmFileUrl], the other
    locators present. *)
Example missing_wasm_locator_selects_fallback :
  select Fixture.browser Fixture.params_asm = Fallback.
Proof. reflexivity. Qed.

(** * The loader: what every reachable state satisfies *)

Section LoaderInvariant.

Variable host : Host.
Variable E : Engine.

(** The invariant looks at neither the promises, nor the scripts in
    flight, nor the arena. *)
Ltac frame :=
  let H := fresh in
  intros H; destruct H; constructor; cbn in *; assumption.

Lemma Inv_set_promises st np nf l :
  Inv host st np nf -> Inv host (set_promises l st) np nf.
Proof. frame. Qed.

Lemma Inv_set_scripts st np nf l :
  Inv host st np nf -> Inv host (set_scripts l st) np nf.
Proof. frame. Qed.

Lemma Inv_set_arena st np nf a :
  Inv host st np nf -> Inv host (set_arena a st) np nf.
Proof. frame. Qed.

Lemma Inv_settle st np nf k s :
  Inv host st np nf -> Inv host (settle k s st) np nf.
Proof.
  intros H. unfold settle.
  destruct (nth_error (promises st) k) as [[?|]|]; try exact H.
  apply Inv_set_promises, H.
Qed.

Lemma Inv_more_calls st np nf np' :
  Inv host st np nf -> (np <= np')%nat -> Inv host st np' nf.
Proof.
  intros [Hfetch Hnc Hglue Hx Hwl Hwb Hld Htm Hre Hfl Hcalc] Hle.
  constructor; try assumption. intros Hn. specialize (Hnc Hn). lia.
Qed.

(** A request in flight belongs to the native module object. *)
Lemma Inv_drop_xhr st np nf i x :
  Inv host st np nf -> nth_error (xhrs st) i = Some x ->
  Inv host (set_xhrs (drop_nth i (xhrs st)) st) np nf /\ is_native_wasm st = true.
Proof.
  intros [Hfetch Hnc Hglue Hx Hwl Hwb Hld Htm Hre Hfl Hcalc] Hn.
  assert (Hnat : is_native_wasm st = true).
  { apply Hx. intros Hnil. rewrite Hnil in Hn. destruct i; discriminate. }
  split; [|exact Hnat].
  constructor; cbn in *; try assumption. intros _. exact Hnat.
Qed.

(** Effects other than fetches and script loads leave the counts alone. *)
Lemma filter_snoc {A} (f : A -> bool) (l : list A) (x : A) :
  List.length (filter f (l ++ [x]))
  = (List.length (filter f l) + if f x then 1 else 0)%nat.
Proof.
  rewrite List.filter_app, List.length_app. simpl. destruct (f x); reflexivity.
Qed.

(** Closes the goals of the invariant that a step leaves as they were,
    counting one more effect where the trace grew. *)
Ltac count_effects :=
  unfold fetches, script_loads in *; cbn in *;
  rewrite ?filter_snoc; simpl; rewrite ?Nat.add_0_r;
  try assumption; try reflexivity; try lia.

Ltac old_calls Hcalc :=
  let Hin := fresh "Hin" in
  let Heq := fresh "Heq" in
  intros ? ? ? Hin; apply in_app_or in Hin;
  destruct Hin as [Hin|[Heq|[]]]; [eapply Hcalc; exact Hin | try discriminate].

Lemma Inv_emit_calc st np nf k b :
  Inv host st np nf ->
  (b = Primary -> module_exists st = true /\ globalModuleIsFullyLoaded st = true) ->
  Inv host (emit (CalcHashCall k b (module_exists st) (globalModuleIsFullyLoaded st)) st)
      np nf.
Proof.
  intros [Hfetch Hnc Hglue Hx Hwl Hwb Hld Htm Hre Hfl Hcalc] Hb.
  constructor; try assumption; count_effects.
  intros k' m f Hin. apply in_app_or in Hin. destruct Hin as [Hin|[Heq|[]]].
  - eauto.
  - inversion Heq; subst. apply Hb. reflexivity.
Qed.

Lemma loaded_module_exists st np nf :
  Inv host st np nf -> globalModuleIsFullyLoaded st = true -> module_exists st = true.
Proof.
  intros [Hfetch Hnc Hglue Hx Hwl Hwb Hld Htm Hre Hfl Hcalc] Hl. specialize (Hld Hl).
  rewrite Hwb in Hld. unfold binary_arrived, module_exists in *.
  destruct (global_Module st); [reflexivity|discriminate].
Qed.

(** The binary arrives only at the native module object. *)
Lemma arrived_native st np nf :
  Inv host st np nf -> binary_arrived st = true -> is_native_wasm st = true.
Proof.
  intros [Hfetch Hnc Hglue Hx Hwl Hwb Hld Htm Hre Hfl Hcalc] Ha.
  destruct Hglue as [HM|[Hn|HM]]; [|exact Hn|];
    unfold binary_arrived in Ha; rewrite HM in Ha; discriminate.
Qed.

Lemma loaded_native st np nf :
  Inv host st np nf -> globalModuleIsFullyLoaded st = true -> is_native_wasm st = true.
Proof.
  intros H Hl. apply (arrived_native st np nf H).
  rewrite <- (inv_wrapper_binary _ _ _ _ H). exact (inv_loaded _ _ _ _ H Hl).
Qed.

Lemma Inv_run_calcHash st np nf k b params :
  Inv host st np nf ->
  (b = Primary -> globalModuleIsFullyLoaded st = true) ->
  Inv host (snd (run_calcHash E k b params st)) np nf.
Proof.
  intros H Hb. unfold run_calcHash.
  destruct (calcHash E params _) as [c a]. cbn [snd].
  apply Inv_set_arena, Inv_emit_calc; [exact H|].
  intros Hp. split; [|auto]. eapply loaded_module_exists; eauto.
Qed.

Lemma Inv_resolve_calcHash st np nf k params :
  Inv host st np nf -> globalModuleIsFullyLoaded st = true ->
  Inv host (resolve_calcHash E k params st) np nf.
Proof.
  intros H Hl. unfold resolve_calcHash.
  pose proof (Inv_run_calcHash st np nf k Primary params H (fun _ => Hl)) as H'.
  destruct (run_calcHash E k Primary params st) as [[v|e] st']; cbn [snd] in H'.
  - apply Inv_settle, H'.
  - exact H'.
Qed.

Lemma Inv_fallback_calcHash st np nf k params :
  Inv host st np nf -> Inv host (fallback_calcHash E k params st) np nf.
Proof.
  intros H. unfold fallback_calcHash.
  assert (H' : Inv host (snd (run_calcHash E k Fallback params st)) np nf)
    by (apply Inv_run_calcHash; [exact H|discriminate]).
  destruct (run_calcHash E k Fallback params st) as [[v|e] st']; cbn [snd] in H';
    apply Inv_settle, H'.
Qed.

Lemma timer_ok_mono st st' t :
  (globalModuleIsFullyLoaded st = true -> globalModuleIsFullyLoaded st' = true) ->
  (module_exists st = true -> module_exists st' = true) ->
  timer_ok host st t -> timer_ok host st' t.
Proof. intros Hl Hm. destruct t; simpl; intuition auto. Qed.

Lemma Inv_add_timer st np nf t :
  Inv host st np nf -> timer_ok host st t ->
  Inv host (set_timers (timers st ++ [t]) st) np nf.
Proof.
  intros [Hfetch Hnc Hglue Hx Hwl Hwb Hld Htm Hre Hfl Hcalc] Ht.
  constructor; cbn in *; try assumption.
  apply Forall_app. split; [|constructor; [|constructor]].
  - eapply Forall_impl; [|exact Htm]. intros t'. apply timer_ok_mono; auto.
  - revert Ht. apply timer_ok_mono; auto.
Qed.

Lemma Inv_pop_timer st np nf t rest :
  Inv host st np nf -> timers st = t :: rest ->
  Inv host (set_timers rest st) np nf /\ timer_ok host st t.
Proof.
  intros [Hfetch Hnc Hglue Hx Hwl Hwb Hld Htm Hre Hfl Hcalc] Ht.
  rewrite Ht in Htm.
  pose proof (Forall_inv Htm) as Hhd. pose proof (Forall_inv_tail Htm) as Htl.
  split; [|exact Hhd].
  constructor; assumption.
Qed.

Lemma Inv_fallback_branch st np nf params k :
  Inv host st np nf -> Inv host (fallback_branch params k st) np (S nf).
Proof.
  intros [Hfetch Hnc Hglue Hx Hwl Hwb Hld Htm Hre Hfl Hcalc].
  unfold fallback_branch. constructor; try assumption; count_effects.
  old_calls Hcalc.
Qed.

(** No module object: no request in flight, no wrapper promise, no
    flag. *)
Lemma nothing_without_module st np nf :
  Inv host st np nf -> global_Module st = None ->
  is_native_wasm st = false /\ xhrs st = [] /\ wrapper_exists st = false
  /\ globalModuleIsFullyLoaded st = false.
Proof.
  intros [Hfetch Hnc Hglue Hx Hwl Hwb Hld Htm Hre Hfl Hcalc] HM.
  assert (Hn : is_native_wasm st = false) by (unfold is_native_wasm; now rewrite HM).
  assert (Hw : wrapper_exists st = false)
    by (rewrite Hwb; unfold binary_arrived; now rewrite HM).
  split; [exact Hn|]. split; [|split; [exact Hw|]].
  - destruct (xhrs st) eqn:Hxs; [reflexivity|].
    assert (is_native_wasm st = true) by (apply Hx; discriminate). congruence.
  - destruct (globalModuleIsFullyLoaded st); [|reflexivity].
    specialize (Hld eq_refl). congruence.
Qed.

Lemma Inv_instantiate st np nf params k :
  Inv host st np nf -> module_exists st = false ->
  Inv host (instantiate k params st) (S np) nf.
Proof.
  intros H Hno. unfold instantiate.
  destruct (initialMemory params) as [pages|].
  - assert (HM : global_Module st = None).
    { unfold module_exists in Hno. destruct (global_Module st); [discriminate|reflexivity]. }
    destruct (nothing_without_module st np nf H HM) as (Hn & Hxs & Hw & Hl).
    destruct H as [Hfetch Hnc Hglue Hx Hwl Hwb Hld Htm Hre Hfl Hcalc].
    rewrite Hn in Hfetch. unfold wrapper_exists in *.
    constructor; unfold is_native_wasm, binary_arrived, wrapper_exists, module_exists;
      cbn; try assumption; count_effects;
      match goal with
      | |- _ \/ _ => right; left; reflexivity
      | |- Forall (timer_ok _ _) _ =>
          eapply Forall_impl; [|exact Htm]; intros t'; apply timer_ok_mono; cbn; auto
      | |- forall _ _ _, In _ _ -> _ => old_calls Hcalc
      | |- _ => idtac
      end.
  - apply Inv_settle. eapply Inv_more_calls; [exact H|lia].
Qed.

Lemma Inv_chain_then st np nf params k :
  Inv host st np nf -> globalModuleIsFullyLoaded st = true ->
  Inv host (chain (ThenCalc k params) (ensure_wrapper params st)) np nf.
Proof.
  intros H Hl. pose proof (inv_loaded _ _ _ _ H Hl) as Hw.
  unfold ensure_wrapper, chain, wrapper_exists in *.
  destruct (loadArgon2WrapperPromise st) as [[rs| |error]|] eqn:Hp; [| | |discriminate];
    rewrite Hp.
  - destruct H as [Hfetch Hnc Hglue Hx Hwl Hwb Hld Htm Hre Hfl Hcalc].
    constructor; unfold wrapper_exists, binary_arrived in *; cbn;
      rewrite ?Hp in *; try assumption.
    intros rs' Heq. inversion Heq; subst.
    apply Forall_app. split; [exact (Hre rs eq_refl)|repeat constructor; exact Hl].
  - cbn [on_fulfilled]. apply Inv_add_timer; [exact H|exact Hl].
  - cbn [on_rejected]. apply Inv_settle, H.
Qed.

Lemma Inv_primary_branch st np nf params k :
  Inv host st np nf -> use_fallback host params = false ->
  Inv host (primary_branch params k st) (S np) nf
  /\ (module_exists st = true -> Inv host (primary_branch params k st) np nf).
Proof.
  intros H Hfb. unfold primary_branch.
  assert (Hup : forall st', Inv host st' np nf -> Inv host st' (S np) nf)
    by (intros st' H'; eapply Inv_more_calls; [exact H'|lia]).
  destruct (module_exists st) eqn:Hm.
  - cbn [andb].
    destruct (globalModuleIsFullyLoaded st) eqn:Hl; cbn [negb].
    + rewrite (loaded_native st np nf H Hl).
      pose proof (Inv_chain_then st np nf params k H Hl). auto.
    + assert (Inv host (set_timers (timers st ++ [Retry k params]) st) np nf)
        by (apply Inv_add_timer; [exact H|split; assumption]).
      auto.
  - cbn [andb]. split; [|discriminate].
    apply Inv_instantiate; assumption.
Qed.

Lemma argon2Hash_branches params k st :
  argon2Hash host params k st
  = if use_fallback host params then fallback_branch params k st
    else primary_branch params k st.
Proof. reflexivity. Qed.

Lemma Inv_reject_wrapper st np nf k error :
  Inv host st np nf -> Inv host (reject_wrapper k error st) np nf.
Proof. apply Inv_settle. Qed.

Lemma Inv_xhr_onload st np nf k params :
  Inv host st np nf -> is_native_wasm st = true ->
  Inv host (xhr_onload k params st) np nf.
Proof.
  intros H Hnat. unfold xhr_onload.
  destruct (global_Module st) as [M|] eqn:HM; [|exact H].
  destruct H as [Hfetch Hnc Hglue Hx Hwl Hwb Hld Htm Hre Hfl Hcalc].
  unfold ensure_wrapper, chain, set_Module. cbn [loadArgon2WrapperPromise].
  unfold module_exists, is_native_wasm, binary_arrived, wrapper_exists in *.
  rewrite HM in *.
  assert (Htm' : forall st', globalModuleIsFullyLoaded st' = globalModuleIsFullyLoaded st ->
                             module_exists st' = true ->
                             Forall (timer_ok host st') (timers st)).
  { intros st' Hl Hm. eapply Forall_impl; [|exact Htm]. intros t'.
    apply timer_ok_mono; [congruence|auto]. }
  assert (Hnew : forall k' m f,
             In (CalcHashCall k' Primary m f)
                (trace st ++ [ScriptLoad Primary (argon2FileUrl params)]) ->
             m = true /\ f = true) by old_calls Hcalc.
  destruct (loadArgon2WrapperPromise st) as [[rs| |error]|] eqn:Hw; cbn;
    try apply Inv_reject_wrapper;
    (constructor; unfold module_exists, is_native_wasm, binary_arrived, wrapper_exists,
       native_method in *;
     cbn; try rewrite Hw; try assumption; count_effects);
    match goal with
    | |- _ \/ _ => right; left; exact Hnat
    | |- globalModuleIsFullyLoaded _ = true -> _ =>
        let Hl := fresh in intros Hl; first [reflexivity | specialize (Hld Hl); congruence]
    | |- Forall (timer_ok _ _) _ => apply Htm'; reflexivity
    | |- forall rs, _ -> Forall (reaction_ok _) _ =>
        let Heq := fresh in
        intros ? Heq;
        first [ discriminate
              | inversion Heq; subst;
                first [ apply Forall_app; split;
                        [exact (Hre _ eq_refl)|repeat constructor]
                      | repeat constructor ] ]
    | |- _ => idtac
    end.
Qed.

Lemma Inv_xhr_onerror st np nf k params :
  Inv host st np nf -> Inv host (xhr_onerror k params st) np nf.
Proof. apply Inv_settle. Qed.

(** The timers a fulfilled wrapper promise starts, all at once. *)
Lemma fulfilled_all rs st :
  fold_left (fun s r => on_fulfilled r s) rs st
  = set_timers (timers st ++ calc_timers rs) st.
Proof.
  revert st. induction rs as [|r rs IH]; intros st; simpl.
  - rewrite List.app_nil_r. destruct st; reflexivity.
  - rewrite IH. destruct r as [k' params|k']; cbn.
    + rewrite <- List.app_assoc. reflexivity.
    + reflexivity.
Qed.

Lemma calc_timers_ok st rs :
  Forall (reaction_ok st) rs -> Forall (timer_ok host st) (calc_timers rs).
Proof.
  induction 1 as [|r rs Hr _ IH]; simpl; [constructor|].
  destruct r as [k' params|k']; simpl; [constructor; assumption|assumption].
Qed.

Lemma Inv_rejected_all st np nf error rs :
  Inv host st np nf ->
  Inv host (fold_left (fun s r => on_rejected error r s) rs st) np nf.
Proof.
  revert st. induction rs as [|r rs IH]; intros st H; simpl; [exact H|].
  apply IH. destruct r; apply Inv_reject_wrapper, H.
Qed.

Lemma Inv_settle_wrapper st np nf rs w :
  Inv host st np nf ->
  loadArgon2WrapperPromise st = Some (Pending rs) ->
  w = Fulfilled \/ (exists error, w = Rejected error) ->
  Inv host (set_wrapper (Some w) st) np nf.
Proof.
  intros [Hfetch Hnc Hglue Hx Hwl Hwb Hld Htm Hre Hfl Hcalc] Hw Hsettled.
  constructor; unfold wrapper_exists in *; cbn; try rewrite Hw in *; try assumption;
    match goal with
    | |- _ = true -> true = true => reflexivity
    | |- forall rs', _ -> Forall _ _ =>
        let Heq := fresh in
        intros ? Heq; destruct Hsettled as [->|[error ->]]; discriminate
    end.
Qed.

Lemma Inv_add_timers st np nf l :
  Inv host st np nf -> Forall (timer_ok host st) l ->
  Inv host (set_timers (timers st ++ l) st) np nf.
Proof.
  intros [Hfetch Hnc Hglue Hx Hwl Hwb Hld Htm Hre Hfl Hcalc] Hl.
  constructor; try assumption. cbn.
  apply Forall_app. split; assumption.
Qed.

(** The fallback script defines the module object when there is none. *)
Lemma Inv_define_Module st np nf :
  Inv host st np nf -> Inv host (define_Module st) np nf.
Proof.
  intros H. unfold define_Module.
  destruct (global_Module st) as [M|] eqn:HM; [exact H|].
  destruct (nothing_without_module st np nf H HM) as (Hn & Hxs & Hw & Hl).
  destruct H as [Hfetch Hnc Hglue Hx Hwl Hwb Hld Htm Hre Hfl Hcalc].
  unfold wrapper_exists in *.
  constructor; unfold is_native_wasm, binary_arrived, wrapper_exists, module_exists in *;
    cbn; rewrite ?HM in *; try assumption;
    match goal with
    | |- false = true -> _ => discriminate
    | |- _ \/ _ => right; right; reflexivity
    | |- _ <> _ -> _ => intros Hne; rewrite Hxs in Hne; contradiction
    | |- Forall (timer_ok _ _) _ =>
        eapply Forall_impl; [|exact Htm]; intros t'; apply timer_ok_mono; cbn; auto
    | |- _ => idtac
    end.
Qed.

Lemma Inv_script_onload st np nf req :
  Inv host st np nf -> Inv host (script_onload E req st) np nf.
Proof.
  intros H. destruct req as [src|src k params]; cbn [script_onload].
  - destruct (loadArgon2WrapperPromise st) as [[rs| |error]|] eqn:Hw; try exact H.
    rewrite fulfilled_all.
    apply Inv_add_timers; [eapply Inv_settle_wrapper; eauto|].
    apply calc_timers_ok. exact (inv_reactions _ _ _ _ H rs Hw).
  - apply Inv_fallback_calcHash, Inv_define_Module, H.
Qed.

Lemma Inv_script_onerror st np nf req error :
  Inv host st np nf -> Inv host (script_onerror host req error st) np nf.
Proof.
  intros H. destruct req as [src|src k params]; cbn [script_onerror].
  - destruct (loadArgon2WrapperPromise st) as [[rs| |error']|] eqn:Hw; try exact H.
    apply Inv_rejected_all. eapply Inv_settle_wrapper; eauto.
  - apply Inv_settle, H.
Qed.

Lemma Inv_post_run st np nf :
  Inv host st np nf -> Inv host (post_run E st) np nf.
Proof.
  intros H. unfold post_run.
  destruct (global_Module st) as [M|] eqn:HM; [|exact H].
  assert (Hfire : forall k params,
             wrapper_exists st = true ->
             Inv host (resolve_calcHash E k params
                         (set_loaded true
                            (set_Module
                               (Some {| wasmBinary := wasmBinary M;
                                        wasmJSMethod := wasmJSMethod M;
                                        asmjsCodeFile := asmjsCodeFile M;
                                        wasmBinaryFile := wasmBinaryFile M;
                                        wasmMemory := wasmMemory M;
                                        TOTAL_MEMORY := TOTAL_MEMORY M;
                                        postRun := None |}) st))) np nf).
  { intros k params Hw. apply Inv_resolve_calcHash; [|reflexivity].
    assert (Hnat : is_native_wasm st = true).
    { apply (arrived_native st np nf H).
      rewrite <- (inv_wrapper_binary _ _ _ _ H). exact Hw. }
    destruct H as [Hfetch Hnc Hglue Hx Hwl Hwb Hld Htm Hre Hfl Hcalc].
    unfold module_exists, is_native_wasm, binary_arrived in *. rewrite HM in *.
    constructor; unfold module_exists, is_native_wasm, binary_arrived, native_method in *;
      cbn; try assumption; try reflexivity;
      match goal with
      | |- _ \/ _ => right; left; exact Hnat
      | |- true = true -> _ => intros _; assumption
      | |- Forall (timer_ok _ _) _ =>
          eapply Forall_impl; [|exact Htm]; intros t';
          apply timer_ok_mono; cbn; [reflexivity|]; unfold module_exists; cbn; reflexivity
      | |- forall rs, _ -> Forall (reaction_ok _) _ =>
          let Hrs := fresh in
          intros rs Hrs; eapply Forall_impl; [|exact (Hre rs Hrs)];
          intros r _; destruct r; simpl; [reflexivity|exact I]
      | |- _ => idtac
      end. }
  destruct (loadArgon2WrapperPromise st) as [[rs| |error]|] eqn:Hw; try exact H;
    (destruct (postRun M) as [[k params]|]; [|exact H]);
    apply Hfire; unfold wrapper_exists; rewrite Hw; reflexivity.
Qed.

Lemma Inv_timer_fires st np nf :
  Inv host st np nf -> Inv host (timer_fires host E st) np nf.
Proof.
  intros H. unfold timer_fires.
  destruct (timers st) as [|[k params|k params] rest] eqn:Ht; [exact H| |].
  - destruct (Inv_pop_timer st np nf _ _ H Ht) as [H' [Hfb Hm]].
    rewrite argon2Hash_branches, Hfb.
    apply (Inv_primary_branch (set_timers rest st) np nf params k H' Hfb).
    exact Hm.
  - destruct (Inv_pop_timer st np nf _ _ H Ht) as [H' Hl].
    apply Inv_resolve_calcHash; [exact H'|exact Hl].
Qed.

Lemma Inv_initial : Inv host initial_state 0 0.
Proof.
  constructor; cbn; try reflexivity; try discriminate.
  - left. reflexivity.
  - intros Hne. contradiction.
  - constructor.
  - intros k m f [].
Qed.

Lemma Inv_step st np nf ev :
  Inv host st np nf ->
  Inv host (step host E st ev)
      (np + if takes host Primary ev then 1 else 0)
      (nf + if takes host Fallback ev then 1 else 0).
Proof.
  intros H.
  assert (Hsame : forall st', Inv host st' np nf -> Inv host st' (np + 0) (nf + 0))
    by (intros st'; now rewrite !Nat.add_0_r).
  destruct ev as [params| |i|i|i|i error|]; cbn [step takes].
  - rewrite argon2Hash_branches.
    pose proof (Inv_set_promises st np nf (promises st ++ [None]) H) as H'.
    destruct (use_fallback host params) eqn:Hfb; cbn [negb].
    + replace (np + 0)%nat with np by lia. replace (nf + 1)%nat with (S nf) by lia.
      apply Inv_fallback_branch, H'.
    + replace (np + 1)%nat with (S np) by lia. replace (nf + 0)%nat with nf by lia.
      exact (proj1 (Inv_primary_branch _ _ _ _ _ H' Hfb)).
  - apply Hsame, Inv_timer_fires, H.
  - apply Hsame. destruct (nth_error (xhrs st) i) as [[k params]|] eqn:Hn; [|exact H].
    destruct (Inv_drop_xhr st np nf i _ H Hn) as [H' Hnat].
    apply Inv_xhr_onload; [exact H'|exact Hnat].
  - apply Hsame. destruct (nth_error (xhrs st) i) as [[k params]|] eqn:Hn; [|exact H].
    destruct (Inv_drop_xhr st np nf i _ H Hn) as [H' Hnat].
    apply Inv_xhr_onerror, H'.
  - apply Hsame. destruct (nth_error (scripts st) i) as [req|]; [|exact H].
    apply Inv_script_onload, Inv_set_scripts, H.
  - apply Hsame. destruct (nth_error (scripts st) i) as [req|]; [|exact H].
    apply Inv_script_onerror, Inv_set_scripts, H.
  - apply Hsame, Inv_post_run, H.
Qed.

Lemma calls_snoc b evs ev :
  calls host b (evs ++ [ev]) = (calls host b evs + if takes host b ev then 1 else 0)%nat.
Proof. apply filter_snoc. Qed.

Lemma run_snoc st evs ev :
  run host E st (evs ++ [ev]) = step host E (run host E st evs) ev.
Proof. unfold run. now rewrite List.fold_left_app. Qed.

(** Every state a schedule leads to satisfies the invariant. *)
Lemma Inv_run evs :
  Inv host (run host E initial_state evs) (calls host Primary evs) (calls host Fallback evs).
Proof.
  induction evs as [|ev evs IH] using rev_ind.
  - exact Inv_initial.
  - rewrite run_snoc, !calls_snoc. apply Inv_step, IH.
Qed.

End LoaderInvariant.

(** ** Nothing is taken back *)

Lemma set_nth_length {A} k (x : A) l : List.length (set_nth k x l) = List.length l.
Proof.
  revert k. induction l as [|y l IH]; intros [|k]; simpl; try reflexivity.
  now rewrite IH.
Qed.

Lemma nth_error_set_nth_other {A} k k' (x : A) l :
  k' <> k -> nth_error (set_nth k' x l) k = nth_error l k.
Proof.
  revert k k'. induction l as [|y l IH]; intros [|k] [|k'] Hne; simpl;
    try reflexivity; try congruence.
  apply IH. congruence.
Qed.

Lemma Forall_drop_nth {A} (P : A -> Prop) i l :
  Forall P l -> Forall P (drop_nth i l).
Proof.
  intros H. revert i. induction H as [|x l Hx Hl IH]; intros [|i]; simpl;
    try constructor; auto.
Qed.

Lemma nth_error_Forall {A} (P : A -> Prop) i l x :
  Forall P l -> nth_error l i = Some x -> P x.
Proof.
  intros H Hn. rewrite Forall_forall in H. apply H. eapply nth_error_In, Hn.
Qed.


Lemma run_calcHash_eq (E : Engine) k b params st :
  run_calcHash E k b params st
  = (fst (calcHash E params (arena st)),
     set_arena (snd (calcHash E params (arena st)))
               (emit (CalcHashCall k b (module_exists st) (globalModuleIsFullyLoaded st))
                     st)).
Proof.
  unfold run_calcHash. cbn [arena emit].
  destruct (calcHash E params (arena st)) as [c a]. reflexivity.
Qed.

Lemma same_setup_refl M : same_setup M M.
Proof. repeat split. Qed.

Lemma same_setup_trans M M' M'' : same_setup M M' -> same_setup M' M'' -> same_setup M M''.
Proof. unfold same_setup. intuition congruence. Qed.

Lemma never_reset_refl st : never_reset st st.
Proof.
  unfold never_reset. repeat split; auto.
  - intros M HM _. exists M. split; [exact HM|apply same_setup_refl].
  - exists []. now rewrite List.app_nil_r.
Qed.

Lemma never_reset_trans st st' st'' :
  never_reset st st' -> never_reset st' st'' -> never_reset st st''.
Proof.
  intros (Hm & HM & Hl & Hw & Hs & Ho & [t Ht]) (Hm' & HM' & Hl' & Hw' & Hs' & Ho' & [t' Ht']).
  unfold never_reset. repeat split; auto.
  - intros M Hmod Hnat. destruct (HM M Hmod Hnat) as (M' & Hmod' & Hsame).
    assert (Hnat' : is_native_wasm st' = true).
    { unfold is_native_wasm, native_method in *. rewrite Hmod in Hnat. rewrite Hmod'.
      destruct Hsame as (-> & _). exact Hnat. }
    destruct (HM' M' Hmod' Hnat') as (M'' & Hmod'' & Hsame').
    exists M''. split; [exact Hmod''|eapply same_setup_trans; eassumption].
  - exists (t ++ t'). now rewrite Ht', Ht, List.app_assoc.
Qed.

(** A change that leaves the module object, the flag and the promises
    alone, and at most starts the wrapper promise or adds to its
    reactions. *)
Lemma never_reset_frame st st' :
  global_Module st' = global_Module st ->
  globalModuleIsFullyLoaded st' = globalModuleIsFullyLoaded st ->
  (forall w, loadArgon2WrapperPromise st = Some w ->
             if is_settled w then loadArgon2WrapperPromise st' = Some w
             else wrapper_exists st' = true) ->
  promises st' = promises st ->
  (exists t, trace st' = trace st ++ t) ->
  never_reset st st'.
Proof.
  intros HM Hl Hw Hp Ht. unfold never_reset, module_exists, is_native_wasm, outcome.
  rewrite HM, Hl, Hp. repeat split; auto.
  - intros M Hmod _. exists M. split; [exact Hmod|apply same_setup_refl].
  - unfold wrapper_exists at 1.
    destruct (loadArgon2WrapperPromise st) as [w|] eqn:Hws; [|discriminate].
    intros _. specialize (Hw w eq_refl). destruct (is_settled w); [|exact Hw].
    unfold wrapper_exists. now rewrite Hw.
  - intros w Hws Hset. specialize (Hw w Hws). now rewrite Hset in Hw.
Qed.

Lemma wrapper_kept st st' :
  loadArgon2WrapperPromise st' = loadArgon2WrapperPromise st ->
  forall w, loadArgon2WrapperPromise st = Some w ->
            if is_settled w then loadArgon2WrapperPromise st' = Some w
            else wrapper_exists st' = true.
Proof.
  intros Heq w Hw. unfold wrapper_exists. rewrite Heq, Hw.
  destruct (is_settled w); reflexivity.
Qed.

(** The effects observed only grow. *)
Ltac grown :=
  cbn; first [ exists []; now rewrite List.app_nil_r
             | eexists; reflexivity
             | eexists; rewrite <- List.app_assoc; reflexivity ].

Lemma outcome_set_nth_kept (ps : list (option Settlement)) k k' s s' :
  nth_error ps k' = Some None ->
  match nth_error ps k with Some o => o | None => None end = Some s ->
  match nth_error (set_nth k' (Some s') ps) k with Some o => o | None => None end = Some s.
Proof.
  intros Hk' Hk. destruct (Nat.eq_dec k' k) as [->|Hne].
  - rewrite Hk' in Hk. discriminate.
  - now rewrite nth_error_set_nth_other.
Qed.

Lemma never_reset_settle st k s : never_reset st (settle k s st).
Proof.
  unfold settle.
  destruct (nth_error (promises st) k) as [[?|]|] eqn:Hk; try apply never_reset_refl.
  unfold never_reset, module_exists, is_native_wasm, wrapper_exists, outcome.
  cbn. repeat split; auto.
  - intros M Hmod _. exists M. split; [exact Hmod|apply same_setup_refl].
  - intros k0 s0. apply outcome_set_nth_kept, Hk.
  - grown.
Qed.

Section NeverReset.

Variable host : Host.
Variable E : Engine.

Ltac framed :=
  apply never_reset_frame; try reflexivity; [apply wrapper_kept; reflexivity|grown].

Lemma never_reset_resolve_calcHash st k params :
  never_reset st (resolve_calcHash E k params st).
Proof.
  unfold resolve_calcHash. rewrite run_calcHash_eq.
  destruct (fst (calcHash E params (arena st))) as [v|e].
  - eapply never_reset_trans; [|apply never_reset_settle]. framed.
  - framed.
Qed.

Lemma never_reset_fallback_calcHash st k params :
  never_reset st (fallback_calcHash E k params st).
Proof.
  unfold fallback_calcHash. rewrite run_calcHash_eq.
  destruct (fst (calcHash E params (arena st))) as [v|e];
    (eapply never_reset_trans; [|apply never_reset_settle]); framed.
Qed.

Lemma never_reset_chain st r : never_reset st (chain r st).
Proof.
  unfold chain.
  destruct (loadArgon2WrapperPromise st) as [[rs| |error]|] eqn:Hw;
    try apply never_reset_refl.
  - apply never_reset_frame; try reflexivity; [|grown].
    intros w Hw'. rewrite Hw in Hw'. inversion Hw'; subst. reflexivity.
  - destruct r; [framed|apply never_reset_refl].
  - destruct r; apply never_reset_settle.
Qed.

Lemma never_reset_ensure_wrapper st params : never_reset st (ensure_wrapper params st).
Proof.
  unfold ensure_wrapper.
  destruct (loadArgon2WrapperPromise st) as [w|] eqn:Hw; [apply never_reset_refl|].
  apply never_reset_frame; try reflexivity; [|grown].
  intros w Hw'. congruence.
Qed.

Lemma never_reset_instantiate st k params :
  is_native_wasm st = false \/ module_exists st = false ->
  never_reset st (instantiate k params st).
Proof.
  intros Hnew. unfold instantiate.
  destruct (initialMemory params) as [pages|]; [|apply never_reset_settle].
  unfold never_reset, module_exists, is_native_wasm, wrapper_exists, outcome in *.
  cbn. repeat split; auto; [|grown].
  intros M HM Hnat. rewrite HM in *. destruct Hnew; congruence.
Qed.

Lemma never_reset_define_Module st : never_reset st (define_Module st).
Proof.
  unfold define_Module. destruct (global_Module st) as [M|] eqn:HM;
    [apply never_reset_refl|].
  unfold never_reset, module_exists, is_native_wasm, wrapper_exists, outcome.
  cbn. rewrite HM. repeat split; auto; [|grown].
  intros M HM' _. discriminate.
Qed.

Lemma never_reset_argon2Hash st params k : never_reset st (argon2Hash host params k st).
Proof.
  unfold argon2Hash.
  destruct (use_fallback host params); [framed|].
  destruct (module_exists st && negb (globalModuleIsFullyLoaded st)) eqn:Hdefer;
    [framed|].
  destruct (module_exists st && is_native_wasm st && globalModuleIsFullyLoaded st)
    eqn:Hready.
  - eapply never_reset_trans; [apply never_reset_ensure_wrapper|apply never_reset_chain].
  - apply never_reset_instantiate.
    destruct (module_exists st), (is_native_wasm st), (globalModuleIsFullyLoaded st);
      simpl in *; try discriminate; auto.
Qed.

Lemma never_reset_xhr_onload st k params : never_reset st (xhr_onload k params st).
Proof.
  unfold xhr_onload. destruct (global_Module st) as [M|] eqn:HM;
    [|apply never_reset_refl].
  eapply never_reset_trans;
    [|eapply never_reset_trans; [apply never_reset_ensure_wrapper|apply never_reset_chain]].
  unfold never_reset, module_exists, is_native_wasm, wrapper_exists, outcome.
  cbn. rewrite HM. repeat split; auto; [|grown].
  intros M0 HM0 _. inversion HM0; subst. eexists. split; [reflexivity|].
  repeat split.
Qed.

Lemma never_reset_rejected_all st error rs :
  never_reset st (fold_left (fun s r => on_rejected error r s) rs st).
Proof.
  revert st. induction rs as [|r rs IH]; intros st; simpl; [apply never_reset_refl|].
  eapply never_reset_trans; [|apply IH]. destruct r; apply never_reset_settle.
Qed.

Lemma never_reset_settle_wrapper st rs w :
  loadArgon2WrapperPromise st = Some (Pending rs) ->
  never_reset st (set_wrapper (Some w) st).
Proof.
  intros Hw. apply never_reset_frame; try reflexivity; [|grown].
  intros w' Hw'. rewrite Hw in Hw'. inversion Hw'; subst. reflexivity.
Qed.

Lemma never_reset_script_onload st req : never_reset st (script_onload E req st).
Proof.
  destruct req as [src|src k params]; cbn [script_onload].
  - destruct (loadArgon2WrapperPromise st) as [[rs| |error]|] eqn:Hw;
      try apply never_reset_refl.
    rewrite fulfilled_all.
    eapply never_reset_trans; [eapply never_reset_settle_wrapper, Hw|]. framed.
  - eapply never_reset_trans;
      [apply never_reset_define_Module|apply never_reset_fallback_calcHash].
Qed.

Lemma never_reset_script_onerror st req error :
  never_reset st (script_onerror host req error st).
Proof.
  destruct req as [src|src k params]; cbn [script_onerror].
  - destruct (loadArgon2WrapperPromise st) as [[rs| |error']|] eqn:Hw;
      try apply never_reset_refl.
    eapply never_reset_trans; [eapply never_reset_settle_wrapper, Hw|].
    apply never_reset_rejected_all.
  - apply never_reset_settle.
Qed.

Lemma never_reset_post_run st : never_reset st (post_run E st).
Proof.
  unfold post_run.
  destruct (global_Module st) as [M|] eqn:HM; [|apply never_reset_refl].
  assert (Hfire : forall k params,
             never_reset st
               (resolve_calcHash E k params
                  (set_loaded true
                     (set_Module
                        (Some {| wasmBinary := wasmBinary M;
                                 wasmJSMethod := wasmJSMethod M;
                                 asmjsCodeFile := asmjsCodeFile M;
                                 wasmBinaryFile := wasmBinaryFile M;
                                 wasmMemory := wasmMemory M;
                                 TOTAL_MEMORY := TOTAL_MEMORY M;
                                 postRun := None |}) st)))).
  { intros k params.
    eapply never_reset_trans; [|apply never_reset_resolve_calcHash].
    unfold never_reset, module_exists, is_native_wasm, wrapper_exists, outcome.
    cbn. rewrite HM. repeat split; auto; [|grown].
    intros M0 HM0 _. inversion HM0; subst. eexists. split; [reflexivity|].
    repeat split. }
  destruct (loadArgon2WrapperPromise st) as [[rs| |error]|];
    try apply never_reset_refl;
    (destruct (postRun M) as [[k params]|]; [apply Hfire|apply never_reset_refl]).
Qed.

Lemma never_reset_timer_fires st : never_reset st (timer_fires host E st).
Proof.
  unfold timer_fires.
  destruct (timers st) as [|[k params|k params] rest]; [apply never_reset_refl| |].
  - eapply never_reset_trans; [|apply never_reset_argon2Hash]. framed.
  - eapply never_reset_trans; [|apply never_reset_resolve_calcHash]. framed.
Qed.

Lemma outcome_new_promise (ps : list (option Settlement)) k s :
  match nth_error ps k with Some o => o | None => None end = Some s ->
  match nth_error (ps ++ [None]) k with Some o => o | None => None end = Some s.
Proof.
  intros H. destruct (nth_error ps k) as [o|] eqn:Hn; [|discriminate].
  rewrite List.nth_error_app1 by (apply nth_error_Some; congruence).
  now rewrite Hn.
Qed.

Lemma never_reset_step st ev : never_reset st (step host E st ev).
Proof.
  destruct ev as [params| |i|i|i|i error|]; cbn [step].
  - eapply never_reset_trans; [|apply never_reset_argon2Hash].
    unfold never_reset, module_exists, is_native_wasm, wrapper_exists, outcome.
    cbn. repeat split; auto.
    + intros M HM _. exists M. split; [exact HM|apply same_setup_refl].
    + intros k s. apply outcome_new_promise.
    + grown.
  - apply never_reset_timer_fires.
  - destruct (nth_error (xhrs st) i) as [[k params]|]; [|apply never_reset_refl].
    eapply never_reset_trans; [|apply never_reset_xhr_onload]. framed.
  - destruct (nth_error (xhrs st) i) as [[k params]|]; [|apply never_reset_refl].
    eapply never_reset_trans; [|apply never_reset_settle]. framed.
  - destruct (nth_error (scripts st) i) as [req|]; [|apply never_reset_refl].
    eapply never_reset_trans; [|apply never_reset_script_onload]. framed.
  - destruct (nth_error (scripts st) i) as [req|]; [|apply never_reset_refl].
    eapply never_reset_trans; [|apply never_reset_script_onerror]. framed.
  - apply never_reset_post_run.
Qed.

Lemma never_reset_run st evs : never_reset st (run host E st evs).
Proof.
  revert st. induction evs as [|ev evs IH]; intros st; [apply never_reset_refl|].
  cbn [run fold_left]. eapply never_reset_trans; [apply never_reset_step|apply IH].
Qed.

(** Only a call of [argon2.hash] creates a promise. *)
Lemma promises_settle st k s :
  List.length (promises (settle k s st)) = List.length (promises st).
Proof.
  unfold settle. destruct (nth_error (promises st) k) as [[?|]|]; try reflexivity.
  cbn. apply set_nth_length.
Qed.

Lemma promises_resolve_calcHash st k params :
  List.length (promises (resolve_calcHash E k params st)) = List.length (promises st).
Proof.
  unfold resolve_calcHash. rewrite run_calcHash_eq.
  destruct (fst (calcHash E params (arena st))); [|reflexivity].
  now rewrite promises_settle.
Qed.

Lemma promises_chain st r :
  List.length (promises (chain r st)) = List.length (promises st).
Proof.
  unfold chain. destruct (loadArgon2WrapperPromise st) as [[rs| |error]|];
    try reflexivity; destruct r; try reflexivity; apply promises_settle.
Qed.

Lemma promises_ensure_wrapper st params :
  promises (ensure_wrapper params st) = promises st.
Proof. unfold ensure_wrapper. destruct (loadArgon2WrapperPromise st); reflexivity. Qed.

Lemma promises_argon2Hash st params k :
  List.length (promises (argon2Hash host params k st)) = List.length (promises st).
Proof.
  unfold argon2Hash.
  destruct (use_fallback host params); [reflexivity|].
  destruct (_ && negb _); [reflexivity|].
  destruct (_ && _ && _).
  - now rewrite promises_chain, promises_ensure_wrapper.
  - unfold instantiate. destruct (initialMemory params); [reflexivity|].
    apply promises_settle.
Qed.

Lemma promises_rejected_all st error rs :
  List.length (promises (fold_left (fun s r => on_rejected error r s) rs st))
  = List.length (promises st).
Proof.
  revert st. induction rs as [|r rs IH]; intros st; simpl; [reflexivity|].
  rewrite IH. destruct r; apply promises_settle.
Qed.

Lemma promises_step st ev :
  List.length (promises (step host E st ev))
  = (List.length (promises st) + if is_hash_event ev then 1 else 0)%nat.
Proof.
  destruct ev as [params| |i|i|i|i error|]; cbn [step is_hash_event];
    rewrite ?Nat.add_0_r.
  - rewrite promises_argon2Hash. cbn. now rewrite List.length_app.
  - unfold timer_fires. destruct (timers st) as [|[k params|k params] rest];
      [reflexivity| |].
    + now rewrite promises_argon2Hash.
    + now rewrite promises_resolve_calcHash.
  - destruct (nth_error (xhrs st) i) as [[k params]|]; [|reflexivity].
    unfold xhr_onload. cbn [global_Module set_xhrs].
    destruct (global_Module st); [|reflexivity].
    now rewrite promises_chain, promises_ensure_wrapper.
  - destruct (nth_error (xhrs st) i) as [[k params]|]; [|reflexivity].
    unfold xhr_onerror. now rewrite promises_settle.
  - destruct (nth_error (scripts st) i) as [req|]; [|reflexivity].
    destruct req as [src|src k params]; cbn [script_onload].
    + cbn [loadArgon2WrapperPromise set_scripts].
      destruct (loadArgon2WrapperPromise st) as [[rs| |error]|]; try reflexivity.
      rewrite fulfilled_all. reflexivity.
    + unfold fallback_calcHash. rewrite run_calcHash_eq.
      assert (Hd : promises (define_Module (set_scripts (drop_nth i (scripts st)) st))
                   = promises st).
      { unfold define_Module. cbn [global_Module set_scripts].
        destruct (global_Module st); reflexivity. }
      destruct (fst (calcHash E params _)); now rewrite promises_settle; cbn; rewrite Hd.
  - destruct (nth_error (scripts st) i) as [req|]; [|reflexivity].
    destruct req as [src|src k params]; cbn [script_onerror].
    + cbn [loadArgon2WrapperPromise set_scripts].
      destruct (loadArgon2WrapperPromise st) as [[rs| |error']|]; try reflexivity.
      now rewrite promises_rejected_all.
    + now rewrite promises_settle.
  - unfold post_run. destruct (global_Module st) as [M|]; [|reflexivity].
    destruct (loadArgon2WrapperPromise st) as [[rs| |error]|]; try reflexivity;
      (destruct (postRun M) as [[k params]|]; [|reflexivity]);
      now rewrite promises_resolve_calcHash.
Qed.

Lemma promises_run st evs :
  List.length (promises (run host E st evs))
  = (List.length (promises st) + callers evs)%nat.
Proof.
  revert st. induction evs as [|ev evs IH]; intros st.
  - unfold callers. simpl. lia.
  - cbn [run fold_left]. fold (run host E (step host E st ev) evs).
    rewrite IH, promises_step. unfold callers. simpl.
    destruct (is_hash_event ev); simpl; lia.
Qed.

End NeverReset.

(** X8. From any state and along any schedule the loader takes nothing
    back: a module object stays (with the same method, locators and
    memory while it is the native one), the loaded flag stays set, a
    wrapper promise that is fulfilled or rejected stays so with the same
    reason (a failed load of the wrapper script is never tried again), a
    promise that was settled keeps its settlement, and the fetches, script
    loads and hash computations that happened stay in the record. Each
    call of [argon2.hash] creates one promise and nothing else does. *)
Theorem loader_takes_nothing_back (host : Host) (E : Engine) (st : State)
        (evs : list Event) :
  never_reset st (run host E st evs)
  /\ List.length (promises (run host E st evs))
     = (List.length (promises st) + callers evs)%nat.
Proof. split; [apply never_reset_run|apply promises_run]. Qed.

(** * Promises that stay pending *)

Section Waiting.

Variable host : Host.
Variable E : Engine.
Variable k : nat.

(** Steps that touch neither the promises nor the callbacks. *)
Ltac wframe :=
  let H := fresh in
  intros H; destruct H; constructor; cbn in *; assumption.

Lemma waiting_set_arena st a : waiting host st k -> waiting host (set_arena a st) k.
Proof. wframe. Qed.

Lemma waiting_emit st e : waiting host st k -> waiting host (emit e st) k.
Proof. wframe. Qed.

Lemma waiting_settle st k' s :
  waiting host st k -> k' <> k -> waiting host (settle k' s st) k.
Proof.
  intros H Hne. unfold settle.
  destruct (nth_error (promises st) k') as [[?|]|]; try exact H.
  destruct H as [Hp Ht Hr Hx Hs Hre Hpr].
  constructor; cbn in *; try assumption.
  rewrite nth_error_set_nth_other by exact Hne. exact Hp.
Qed.

Lemma waiting_run_calcHash st k' b params :
  waiting host st k -> waiting host (snd (run_calcHash E k' b params st)) k.
Proof.
  intros H. unfold run_calcHash. destruct (calcHash E params _) as [c a].
  apply waiting_set_arena, waiting_emit, H.
Qed.

Lemma waiting_resolve_calcHash st k' params :
  waiting host st k -> k' <> k -> waiting host (resolve_calcHash E k' params st) k.
Proof.
  intros H Hne. unfold resolve_calcHash.
  pose proof (waiting_run_calcHash st k' Primary params H) as H'.
  destruct (run_calcHash E k' Primary params st) as [[v|e] st']; cbn [snd] in H'.
  - apply waiting_settle; assumption.
  - exact H'.
Qed.

Lemma waiting_fallback_calcHash st k' params :
  waiting host st k -> k' <> k -> waiting host (fallback_calcHash E k' params st) k.
Proof.
  intros H Hne. unfold fallback_calcHash.
  pose proof (waiting_run_calcHash st k' Fallback params H) as H'.
  destruct (run_calcHash E k' Fallback params st) as [[v|e] st']; cbn [snd] in H';
    apply waiting_settle; assumption.
Qed.

Lemma waiting_reject_wrapper st k' error :
  waiting host st k -> k' <> k -> waiting host (reject_wrapper k' error st) k.
Proof. apply waiting_settle. Qed.

(** One more timer, for another promise or a retry in a dead state. *)
Lemma waiting_add_timer st t :
  waiting host st k -> timer_quiet host k t ->
  (forall params, t = Retry k params -> dead st) ->
  waiting host (set_timers (timers st ++ [t]) st) k.
Proof.
  intros [Hp Ht Hr Hx Hs Hre Hpr] Hq Hd.
  constructor; cbn in *; try assumption.
  - apply Forall_app. split; [exact Ht|repeat constructor; exact Hq].
  - intros [params Hin]. apply in_app_or in Hin. destruct Hin as [Hin|[Heq|[]]].
    + apply Hr. eauto.
    + eapply Hd. exact Heq.
Qed.

Lemma waiting_pop_timer st t rest :
  waiting host st k -> timers st = t :: rest ->
  waiting host (set_timers rest st) k
  /\ timer_quiet host k t
  /\ (forall params, t = Retry k params -> dead st).
Proof.
  intros [Hp Ht Hr Hx Hs Hre Hpr] Heq. rewrite Heq in *.
  pose proof (Forall_inv Ht) as Hhd. pose proof (Forall_inv_tail Ht) as Htl.
  split; [|split; [exact Hhd|]].
  - constructor; cbn in *; try assumption.
    intros [params Hin]. apply Hr. exists params. now right.
  - intros params ->. apply Hr. exists params. now left.
Qed.

Lemma waiting_fallback_branch st params k' :
  waiting host st k -> k' <> k -> waiting host (fallback_branch params k' st) k.
Proof.
  intros [Hp Ht Hr Hx Hs Hre Hpr] Hne. unfold fallback_branch.
  constructor; cbn in *; try assumption.
  apply Forall_app. split; [exact Hs|repeat constructor]. simpl. congruence.
Qed.

(** Outside a dead state no retry waits for [k], so the changes a live
    loader makes cannot strand one. *)
Lemma no_retry_when_alive st :
  waiting host st k -> ~ dead st -> forall params, ~ In (Retry k params) (timers st).
Proof. intros H Hnd params Hin. apply Hnd, (w_retry _ _ _ H). eauto. Qed.

Lemma waiting_instantiate st params k' :
  waiting host st k -> k' <> k -> (forall p, ~ In (Retry k p) (timers st)) ->
  waiting host (instantiate k' params st) k.
Proof.
  intros H Hne Hno. unfold instantiate.
  destruct (initialMemory params) as [pages|]; [|apply waiting_settle; assumption].
  destruct H as [Hp Ht Hr Hx Hs Hre Hpr].
  constructor; cbn in *; try assumption.
  - intros [p Hin]. exfalso. eapply Hno, Hin.
  - apply Forall_app. split; [exact Hx|repeat constructor]. simpl. exact Hne.
  - intros M k'' p Heq. inversion Heq; subst. cbn. discriminate.
Qed.

Lemma waiting_chain st r :
  waiting host st k -> reaction_target r <> k ->
  (forall p, ~ In (Retry k p) (timers st)) ->
  waiting host (chain r st) k.
Proof.
  intros H Hne Hno. unfold chain.
  destruct (loadArgon2WrapperPromise st) as [[rs| |error]|] eqn:Hw; try exact H.
  - destruct H as [Hp Ht Hr Hx Hs Hre Hpr].
    constructor; cbn in *; try assumption.
    + intros [p Hin]. exfalso. eapply Hno, Hin.
    + intros rs' Heq. inversion Heq; subst.
      apply Forall_app. split; [apply (Hre rs Hw)|repeat constructor; exact Hne].
  - destruct r as [k' params|k']; cbn [on_fulfilled]; [|exact H].
    destruct H as [Hp Ht Hr Hx Hs Hre Hpr].
    constructor; cbn in *; try assumption.
    + apply Forall_app. split; [exact Ht|repeat constructor; exact Hne].
    + intros [p Hin]. apply in_app_or in Hin. destruct Hin as [Hin|[Heq|[]]].
      * exfalso. eapply Hno, Hin.
      * discriminate.
  - destruct r as [k' params|k']; cbn [on_rejected];
      apply waiting_reject_wrapper; assumption.
Qed.

Lemma waiting_ensure_wrapper st params :
  waiting host st k -> (forall p, ~ In (Retry k p) (timers st)) ->
  waiting host (ensure_wrapper params st) k
  /\ (forall p, ~ In (Retry k p) (timers (ensure_wrapper params st))).
Proof.
  intros H Hno. unfold ensure_wrapper.
  destruct (loadArgon2WrapperPromise st) as [w|] eqn:Hw; [split; assumption|].
  split; [|exact Hno].
  destruct H as [Hp Ht Hr Hx Hs Hre Hpr].
  constructor; cbn in *; try assumption.
  - intros [p Hin]. exfalso. eapply Hno, Hin.
  - apply Forall_app. split; [exact Hs|repeat constructor]. simpl. discriminate.
  - intros rs Heq. inversion Heq. constructor.
Qed.

Lemma dead_branch st :
  dead st -> module_exists st && negb (globalModuleIsFullyLoaded st) = true.
Proof. intros (Hm & Hl & _). now rewrite Hm, Hl. Qed.

Lemma waiting_primary_other st params k' :
  waiting host st k -> k' <> k -> waiting host (primary_branch params k' st) k.
Proof.
  intros H Hne. unfold primary_branch.
  destruct (module_exists st && negb (globalModuleIsFullyLoaded st)) eqn:Hdefer.
  - apply waiting_add_timer; [exact H|intros Heq; contradiction|].
    intros p Heq. inversion Heq. contradiction.
  - assert (Hnd : ~ dead st).
    { intros Hd. apply dead_branch in Hd. congruence. }
    pose proof (no_retry_when_alive st H Hnd) as Hno.
    destruct (module_exists st && is_native_wasm st && globalModuleIsFullyLoaded st).
    + destruct (waiting_ensure_wrapper st params H Hno) as [H' Hno'].
      apply waiting_chain; assumption.
    + apply waiting_instantiate; assumption.
Qed.

Lemma waiting_primary_retry st params :
  waiting host st k -> dead st -> use_fallback host params = false ->
  waiting host (primary_branch params k st) k.
Proof.
  intros H Hd Hfb. unfold primary_branch. rewrite (dead_branch st Hd).
  apply waiting_add_timer; [exact H|intros _; exact Hfb|intros _ _; exact Hd].
Qed.

Lemma waiting_argon2Hash_other st params k' :
  waiting host st k -> k' <> k -> waiting host (argon2Hash host params k' st) k.
Proof.
  intros H Hne. rewrite argon2Hash_branches.
  destruct (use_fallback host params).
  - apply waiting_fallback_branch; assumption.
  - apply waiting_primary_other; assumption.
Qed.

(** A fetch in flight means the loading is not dead. *)
Lemma in_flight_alive st i x : nth_error (xhrs st) i = Some x -> ~ dead st.
Proof.
  intros Hn (_ & _ & Hx & _). rewrite Hx in Hn. destruct i; discriminate.
Qed.

Lemma waiting_drop_xhr st i x :
  waiting host st k -> nth_error (xhrs st) i = Some x ->
  waiting host (set_xhrs (drop_nth i (xhrs st)) st) k
  /\ fst x <> k
  /\ forall params, ~ In (Retry k params) (timers st).
Proof.
  intros H Hn.
  pose proof (no_retry_when_alive st H (in_flight_alive st i x Hn)) as Hno.
  destruct H as [Hp Ht Hr Hx Hs Hre Hpr].
  split; [|split; [|exact Hno]].
  - constructor; cbn in *; try assumption.
    + intros [p Hin]. exfalso. eapply Hno, Hin.
    + apply Forall_drop_nth, Hx.
  - eapply (nth_error_Forall (fun x => fst x <> k)); eauto.
Qed.

Lemma waiting_xhr_onload st k' params :
  waiting host st k -> k' <> k ->
  (forall p, ~ In (Retry k p) (timers st)) ->
  waiting host (xhr_onload k' params st) k.
Proof.
  intros H Hne Hno. unfold xhr_onload.
  destruct (global_Module st) as [M|] eqn:HM; [|exact H].
  set (st1 := set_Module _ st).
  assert (H1 : waiting host st1 k).
  { destruct H as [Hp Ht Hr Hx Hs Hre Hpr].
    constructor; subst st1; cbn in *; try assumption.
    - intros [p Hin]. exfalso. eapply Hno, Hin.
    - intros M' k'' p Heq. inversion Heq; subst. cbn.
      intros Heq'. inversion Heq'; subst. exact Hne. }
  destruct (waiting_ensure_wrapper st1 params H1 Hno) as [H2 Hno2].
  apply waiting_chain; assumption.
Qed.

Lemma waiting_xhr_onerror st k' params :
  waiting host st k -> k' <> k -> waiting host (xhr_onerror k' params st) k.
Proof. apply waiting_settle. Qed.

Lemma calc_timers_quiet rs :
  Forall (fun r => reaction_target r <> k) rs ->
  Forall (timer_quiet host k) (calc_timers rs)
  /\ forall p, ~ In (Retry k p) (calc_timers rs).
Proof.
  induction 1 as [|r rs Hr _ [IH1 IH2]]; simpl.
  - split; [constructor|intros p []].
  - destruct r as [k' params|k']; simpl.
    + split; [constructor; assumption|].
      intros p [Heq|Hin]; [discriminate|eapply IH2, Hin].
    + split; assumption.
Qed.

Lemma waiting_rejected_all st error rs :
  waiting host st k -> Forall (fun r => reaction_target r <> k) rs ->
  waiting host (fold_left (fun s r => on_rejected error r s) rs st) k.
Proof.
  intros H Hrs. revert st H. induction Hrs as [|r rs Hr _ IH]; intros st H; simpl.
  - exact H.
  - apply IH. destruct r; apply waiting_reject_wrapper; assumption.
Qed.

(** Settling the wrapper promise keeps a dead state dead. *)
Lemma waiting_settle_wrapper st rs w :
  waiting host st k ->
  loadArgon2WrapperPromise st = Some (Pending rs) ->
  w = Fulfilled \/ (exists error, w = Rejected error) ->
  waiting host (set_wrapper (Some w) st) k.
Proof.
  intros [Hp Ht Hr Hx Hs Hre Hpr] Hw Hsettled.
  constructor; cbn in *; try assumption.
  - intros Hex. destruct (Hr Hex) as (Hm & Hl & Hxs & Hlink).
    unfold dead. cbn. repeat split; try assumption.
    destruct Hlink as [Hlink|[error Herr]]; [left; exact Hlink|congruence].
  - intros rs' Heq. destruct Hsettled as [->|[error ->]]; discriminate.
Qed.

(** The module object a fallback script defines has no [postRun], and a
    retry waits only where a module object exists already. *)
Lemma waiting_define_Module st : waiting host st k -> waiting host (define_Module st) k.
Proof.
  intros H. unfold define_Module.
  destruct (global_Module st) as [M|] eqn:HM; [exact H|].
  destruct H as [Hp Ht Hr Hx Hs Hre Hpr].
  constructor; cbn in *; try assumption.
  - intros Hex. destruct (Hr Hex) as (Hm & _).
    unfold module_exists in Hm. rewrite HM in Hm. discriminate.
  - intros M k' p Heq. inversion Heq; subst. cbn. discriminate.
Qed.

Lemma waiting_script_onload st req :
  waiting host st k -> req_target req <> Some k ->
  waiting host (script_onload E req st) k.
Proof.
  intros H Hne. destruct req as [src|src k' params]; cbn [script_onload].
  - destruct (loadArgon2WrapperPromise st) as [[rs| |error]|] eqn:Hw; try exact H.
    rewrite fulfilled_all.
    destruct (calc_timers_quiet rs (w_reactions _ _ _ H rs Hw)) as [Hq Hnr].
    pose proof (waiting_settle_wrapper st rs Fulfilled H Hw (or_introl eq_refl)) as H'.
    destruct H' as [Hp Ht Hr Hx Hs Hre Hpr].
    constructor; cbn in *; try assumption.
    + apply Forall_app. split; assumption.
    + intros [p Hin]. apply in_app_or in Hin. destruct Hin as [Hin|Hin].
      * apply Hr. eauto.
      * exfalso. eapply Hnr, Hin.
  - apply waiting_fallback_calcHash; [apply waiting_define_Module, H|].
    simpl in Hne. congruence.
Qed.

Lemma waiting_script_onerror st req error :
  waiting host st k -> req_target req <> Some k ->
  waiting host (script_onerror host req error st) k.
Proof.
  intros H Hne. destruct req as [src|src k' params]; cbn [script_onerror].
  - destruct (loadArgon2WrapperPromise st) as [[rs| |error']|] eqn:Hw; try exact H.
    apply waiting_rejected_all; [|exact (w_reactions _ _ _ H rs Hw)].
    eapply waiting_settle_wrapper; eauto.
  - apply waiting_settle; [exact H|]. simpl in Hne. congruence.
Qed.

Lemma waiting_drop_script st i :
  waiting host st k -> waiting host (set_scripts (drop_nth i (scripts st)) st) k.
Proof.
  intros [Hp Ht Hr Hx Hs Hre Hpr]. constructor; cbn in *; try assumption.
  apply Forall_drop_nth, Hs.
Qed.

Lemma waiting_post_run st : waiting host st k -> waiting host (post_run E st) k.
Proof.
  intros H. unfold post_run.
  destruct (global_Module st) as [M|] eqn:HM; [|exact H].
  assert (Hfire : forall k' params,
             postRun M = Some (k', params) ->
             (forall error, loadArgon2WrapperPromise st <> Some (Rejected error)) ->
             waiting host
               (resolve_calcHash E k' params
                  (set_loaded true
                     (set_Module
                        (Some {| wasmBinary := wasmBinary M;
                                 wasmJSMethod := wasmJSMethod M;
                                 asmjsCodeFile := asmjsCodeFile M;
                                 wasmBinaryFile := wasmBinaryFile M;
                                 wasmMemory := wasmMemory M;
                                 TOTAL_MEMORY := TOTAL_MEMORY M;
                                 postRun := None |}) st))) k).
  { intros k' params Hpr' Hw.
    assert (Hnd : ~ dead st).
    { intros (_ & _ & _ & [Hlink|[error Herr]]).
      - specialize (Hlink M HM). congruence.
      - exact (Hw error Herr). }
    pose proof (no_retry_when_alive st H Hnd) as Hno.
    apply waiting_resolve_calcHash; [|exact (w_postRun _ _ _ H M k' params HM Hpr')].
    destruct H as [Hp Ht Hr Hx Hs Hre Hpr].
    constructor; cbn in *; try assumption.
    - intros [p Hin]. exfalso. eapply Hno, Hin.
    - intros M' k'' p Heq. inversion Heq; subst. cbn. discriminate. }
  destruct (loadArgon2WrapperPromise st) as [[rs| |error]|] eqn:Hw; try exact H;
    (destruct (postRun M) as [[k' params]|] eqn:Hpr'; [|exact H]);
    apply Hfire; [reflexivity|discriminate|reflexivity|discriminate].
Qed.

Lemma dead_set_timers st l : dead st -> dead (set_timers l st).
Proof. intros H. exact H. Qed.

Lemma waiting_timer_fires st :
  waiting host st k -> waiting host (timer_fires host E st) k.
Proof.
  intros H. unfold timer_fires.
  destruct (timers st) as [|[k' params|k' params] rest] eqn:Ht; [exact H| |].
  - destruct (waiting_pop_timer st _ _ H Ht) as (H' & Hq & Hd).
    destruct (Nat.eq_dec k' k) as [->|Hne].
    + rewrite argon2Hash_branches. simpl in Hq. rewrite (Hq eq_refl).
      apply waiting_primary_retry; [exact H'| |exact (Hq eq_refl)].
      apply dead_set_timers, (Hd params eq_refl).
    + apply waiting_argon2Hash_other; assumption.
  - destruct (waiting_pop_timer st _ _ H Ht) as (H' & Hq & Hd).
    apply waiting_resolve_calcHash; assumption.
Qed.

Lemma waiting_new_promise st :
  waiting host st k ->
  waiting host (set_promises (promises st ++ [None]) st) k
  /\ List.length (promises st) <> k.
Proof.
  intros [Hp Ht Hr Hx Hs Hre Hpr].
  assert (Hlt : (k < List.length (promises st))%nat)
    by (apply nth_error_Some; congruence).
  split; [|lia].
  constructor; cbn in *; try assumption.
  rewrite nth_error_app1 by exact Hlt. exact Hp.
Qed.

Lemma waiting_step st ev : waiting host st k -> waiting host (step host E st ev) k.
Proof.
  intros H. destruct ev as [params| |i|i|i|i error|]; cbn [step].
  - destruct (waiting_new_promise st H) as [H' Hne].
    apply waiting_argon2Hash_other; assumption.
  - apply waiting_timer_fires, H.
  - destruct (nth_error (xhrs st) i) as [[k' params]|] eqn:Hn; [|exact H].
    destruct (waiting_drop_xhr st i _ H Hn) as (H' & Hne & Hno).
    apply waiting_xhr_onload; assumption.
  - destruct (nth_error (xhrs st) i) as [[k' params]|] eqn:Hn; [|exact H].
    destruct (waiting_drop_xhr st i _ H Hn) as (H' & Hne & Hno).
    apply waiting_xhr_onerror; assumption.
  - destruct (nth_error (scripts st) i) as [req|] eqn:Hn; [|exact H].
    apply waiting_script_onload; [apply waiting_drop_script, H|].
    eapply (nth_error_Forall (fun r => req_target r <> Some k)); [|exact Hn].
    exact (w_scripts _ _ _ H).
  - destruct (nth_error (scripts st) i) as [req|] eqn:Hn; [|exact H].
    apply waiting_script_onerror; [apply waiting_drop_script, H|].
    eapply (nth_error_Forall (fun r => req_target r <> Some k)); [|exact Hn].
    exact (w_scripts _ _ _ H).
  - apply waiting_post_run, H.
Qed.

(** A waiting promise is never settled, whatever the host delivers. *)
Lemma waiting_forever st evs :
  waiting host st k -> outcome (run host E st evs) k = None.
Proof.
  intros H.
  assert (Hrun : waiting host (run host E st evs) k).
  { revert st H. induction evs as [|ev evs IH]; intros st H; [exact H|].
    cbn [run fold_left]. apply IH, waiting_step, H. }
  unfold outcome. now rewrite (w_pending _ _ _ Hrun).
Qed.

End Waiting.

(** * The loader: fetches, script loads and readiness *)

(** Once the native module object is there, it stays. *)
Lemma native_stays (host : Host) (E : Engine) (st : State) (evs : list Event) :
  is_native_wasm st = true -> is_native_wasm (run host E st evs) = true.
Proof.
  intros Hnat.
  destruct (never_reset_run host E st evs) as (_ & HM & _).
  unfold is_native_wasm in *.
  destruct (global_Module st) as [M|] eqn:Hmod; [|discriminate].
  destruct (HM M eq_refl Hnat) as (M' & -> & Hmethod & _).
  unfold native_method in *. now rewrite Hmethod.
Qed.


(** A primary caller that gives no [mem] is rejected before anything is
    requested; the next primary caller starts the loading. *)
Example caller_without_mem_requests_nothing :
  fetches (run Fixture.browser Fixture.ok initial_state
               [Hash Fixture.params_wasm_no_mem]) = 0%nat
  /\ outcome (run Fixture.browser Fixture.ok initial_state
                   [Hash Fixture.params_wasm_no_mem]) 0
     = Some (RejectedWith Memory_TypeError)
  /\ fetches (run Fixture.browser Fixture.ok initial_state
                  [Hash Fixture.params_wasm_no_mem; Hash Fixture.params_wasm]) = 1%nat.
Proof. vm_compute. repeat split. Qed.

(** After a fallback caller was served, the module object is the one its
    script defined: a primary caller requests nothing and only sets the
    timer of line 93. *)
Example primary_caller_after_fallback_polls :
  fetches (run Fixture.browser Fixture.ok initial_state
               [Hash Fixture.params_asm; ScriptOnload 0; Hash Fixture.params_wasm])
  = 0%nat
  /\ timers (run Fixture.browser Fixture.ok initial_state
                  [Hash Fixture.params_asm; ScriptOnload 0; Hash Fixture.params_wasm])
     = [Retry 1 Fixture.params_wasm]
  /\ In (CalcHashCall 0 Fallback true false)
        (trace (run Fixture.browser Fixture.ok initial_state
                    [Hash Fixture.params_asm; ScriptOnload 0; Hash Fixture.params_wasm])).
Proof. vm_compute. repeat split. right. left. reflexivity. Qed.


(** Two callers on the primary branch are served by one fetch and one
    script load. *)
Example two_primary_callers_load_once :
  fetches (run Fixture.browser Fixture.ok initial_state Schedule.two_primary_callers) = 1%nat
  /\ script_loads Primary
       (run Fixture.browser Fixture.ok initial_state Schedule.two_primary_callers) = 1%nat
  /\ outcome (run Fixture.browser Fixture.ok initial_state Schedule.two_primary_callers) 0
     = Some (Resolved (VHashResult [1; 255; 127; 128] "01ff7f80" "$ar"))
  /\ outcome (run Fixture.browser Fixture.ok initial_state Schedule.two_primary_callers) 1
     = Some (Resolved (VHashResult [1; 255; 127; 128] "01ff7f80" "$ar")).
Proof. vm_compute. repeat split. Qed.

(** C3, as the code has it. On the primary branch [calcHash] is entered
    only when the module object exists and is flagged loaded: a primary
    caller that finds the object without the flag only leaves a timer, and
    the timer runs [argon2Hash] again. The fallback branch does not look
    at the flag. *)
Theorem C3_primary_waits_for_flag (host : Host) (E : Engine) (evs : list Event) :
  let st := run host E initial_state evs in
  (forall k m f, In (CalcHashCall k Primary m f) (trace st) -> m = true /\ f = true)
  /\ (forall params k,
        select host params = Primary ->
        module_exists st = true -> globalModuleIsFullyLoaded st = false ->
        argon2Hash host params k st = set_timers (timers st ++ [Retry k params]) st
        /\ timer_fires host E (set_timers [Retry k params] st)
           = argon2Hash host params k (set_timers [] st)).
Proof.
  cbv zeta. split.
  - exact (inv_calc _ _ _ _ (Inv_run host E evs)).
  - intros params k Hsel Hm Hl. split; [|reflexivity].
    unfold select in Hsel. rewrite argon2Hash_branches.
    destruct (use_fallback host params); [discriminate|].
    unfold primary_branch. now rewrite Hm, Hl.
Qed.

Lemma C3_witness :
  In (CalcHashCall 1 Primary true true)
     (trace (run Fixture.browser Fixture.ok initial_state Schedule.two_primary_callers))
  /\ (true = true /\ true = true).
Proof.
  assert (Hin : In (CalcHashCall 1 Primary true true)
                   (trace (run Fixture.browser Fixture.ok initial_state
                               Schedule.two_primary_callers))).
  { vm_compute. right. right. right. left. reflexivity. }
  split; [exact Hin|].
  exact (proj1 (C3_primary_waits_for_flag Fixture.browser Fixture.ok
                  Schedule.two_primary_callers) 1%nat true true Hin).
Defined.

(** A caller without [wasmFileUrl] arrives while the module object exists
    and is not flagged loaded: once its script has loaded, [calcHash]
    runs. *)
Lemma C3_fallback_ignores_flag :
  In (CalcHashCall 1 Fallback true false)
     (trace (run Fixture.browser Fixture.ok initial_state Schedule.fallback_during_load))
  /\ module_exists (run Fixture.browser Fixture.ok initial_state
                        Schedule.fallback_during_load) = true
  /\ globalModuleIsFullyLoaded (run Fixture.browser Fixture.ok initial_state
                                    Schedule.fallback_during_load) = false.
Proof. vm_compute. repeat split. right. right. left. reflexivity. Qed.

(** * Promises that are never settled *)

(** Establishes [waiting] at a state given by a schedule. *)
Ltac settle_goal :=
  repeat match goal with
         | |- Forall _ _ => constructor
         | |- _ /\ _ => split
         | |- _ -> _ => intro
         | |- forall _, _ => intro
         | H : Some _ = None |- _ => discriminate H
         | H : None = Some _ |- _ => discriminate H
         | H : Some _ = Some _ |- _ => inversion H; clear H; subst
         | H : ex _ |- _ => destruct H
         | H : _ \/ _ |- _ => destruct H
         | H : False |- _ => destruct H
         | H : ?x = ?x |- _ => clear H
         | |- _ = _ => reflexivity
         | |- _ <> _ => discriminate
         | |- ex _ => eexists
         | |- _ \/ _ => first [solve [left; settle_goal] | solve [right; settle_goal]]
         end.

Ltac prove_waiting := constructor; vm_compute; settle_goal.

Lemma second_caller_waits_after_fetch_failure :
  waiting Fixture.browser
          (run Fixture.browser Fixture.ok initial_state Schedule.fetch_fails) 1.
Proof. prove_waiting. Qed.

Lemma late_caller_waits_after_fetch_failure :
  waiting Fixture.browser
          (run Fixture.browser Fixture.ok initial_state
               (Schedule.fetch_fails ++ [Hash Fixture.params_wasm])) 2.
Proof. prove_waiting. Qed.

Lemma late_caller_waits_after_link_failure :
  waiting Fixture.browser
          (run Fixture.browser Fixture.ok initial_state Schedule.link_fails) 1.
Proof. prove_waiting. Qed.

Lemma run_app host E st evs evs' :
  run host E st (evs ++ evs') = run host E (run host E st evs) evs'.
Proof. unfold run. apply List.fold_left_app. Qed.

(** C2 at its failing input. When the fetch of the wasm binary fails, the
    first caller is rejected with the error of that phase; the caller that
    was waiting and a caller that arrives afterwards are never settled,
    whatever happens next. The same holds when the wrapper script fails to
    load. *)
Theorem C2_callers_after_failure_hang (evs : list Event) :
  outcome (run Fixture.browser Fixture.ok initial_state Schedule.fetch_fails) 0
  = Some (RejectedWith (VStr "Error loading wasm undefined"))
  /\ outcome (run Fixture.browser Fixture.ok initial_state
                  (Schedule.fetch_fails ++ evs)) 1 = None
  /\ outcome (run Fixture.browser Fixture.ok initial_state
                  (Schedule.fetch_fails ++ [Hash Fixture.params_wasm] ++ evs)) 2 = None
  /\ outcome (run Fixture.browser Fixture.ok initial_state Schedule.link_fails) 0
     = Some (RejectedWith
               (VStr "Error loading argon2.min.js (WASM already loaded): Error loading script: [object Event]"))
  /\ outcome (run Fixture.browser Fixture.ok initial_state
                  (Schedule.link_fails ++ evs)) 1 = None.
Proof.
  split; [reflexivity|]. split; [|split; [|split; [reflexivity|]]].
  - rewrite run_app. apply waiting_forever, second_caller_waits_after_fetch_failure.
  - rewrite List.app_assoc, run_app.
    apply waiting_forever, late_caller_waits_after_fetch_failure.
  - rewrite run_app. apply waiting_forever, late_caller_waits_after_link_failure.
Qed.

(** * Errors of the engine on their way to the caller *)

(** When [calcHash] throws in a timer or in [postRun], no promise is
    settled. *)
Lemma primary_throw_settles_nothing (E : Engine) k params st x :
  fst (calcHash E params (arena st)) = Throw x ->
  promises (resolve_calcHash E k params st) = promises st.
Proof.
  intros Hthrow. unfold resolve_calcHash, run_calcHash. cbn [arena emit].
  destruct (calcHash E params (arena st)) as [c a]. simpl in Hthrow. subst c.
  reflexivity.
Qed.

(** When [calcHash] throws on the fallback branch, the caller is rejected
    with a loading error that carries the thrown value only as text. *)
Lemma fallback_throw_is_wrapped (E : Engine) k params st x :
  fst (calcHash E params (arena st)) = Throw x ->
  nth_error (promises st) k = Some None ->
  outcome (fallback_calcHash E k params st) k
  = Some (RejectedWith (VError ("Error loading argon2-asm.min.js: " ++ toString x))).
Proof.
  intros Hthrow Hp. unfold fallback_calcHash, run_calcHash. cbn [arena emit].
  destruct (calcHash E params (arena st)) as [c a]. simpl in Hthrow. subst c.
  unfold settle, outcome. cbn. rewrite Hp. cbn.
  assert (Hlt : (k < List.length (promises st))%nat)
    by (apply nth_error_Some; congruence).
  clear Hp. revert k Hlt. induction (promises st) as [|p ps IH]; intros [|k] Hlt;
    simpl in *; try lia; [reflexivity|]. apply IH. lia.
Qed.

Lemma caller_waits_after_engine_error :
  waiting Fixture.browser
          (run Fixture.browser Fixture.status1 initial_state Schedule.primary_loaded) 0.
Proof. prove_waiting. Qed.

(** C4 at its failing input. The engine returns status 1, whose message
    is "Oops". [calcHash] throws [{ message: "Oops", code: 1 }], but the
    caller does not receive it: on the fallback branch the promise is
    rejected with a loading [Error] whose text ends in "[object Object]"
    and which has no code, and on the primary branch the promise is never
    settled. *)
Theorem C4_engine_error_is_lost (evs : list Event) :
  fst (calcHash Fixture.status1 Fixture.params_asm empty_arena)
  = Throw (VHashError (VStr "Oops") (VNum 1))
  /\ outcome (run Fixture.browser Fixture.status1 initial_state Schedule.fallback_loaded) 0
     = Some (RejectedWith (VError "Error loading argon2-asm.min.js: [object Object]"))
  /\ outcome (run Fixture.browser Fixture.status1 initial_state
                  (Schedule.primary_loaded ++ evs)) 0 = None.
Proof.
  split; [vm_compute; reflexivity|]. split; [vm_compute; reflexivity|].
  rewrite run_app. apply waiting_forever, caller_waits_after_engine_error.
Qed.

(** * More about [calcHash] *)

(** ** The arguments of the engine call *)

Lemma num_or_nonzero (x : option N) (d : N) : d <> 0%N -> num_or x d <> 0%N.
Proof.
  intros Hd. destruct x as [n|]; simpl; [|exact Hd].
  destruct (N.eqb_spec n 0); [exact Hd|assumption].
Qed.


(** ** The output buffers *)

Lemma padded_new_Array (n : N) : n <> 0%N -> padded (new_Array n) = repeat 0 (N.to_nat n).
Proof.
  intros Hn. unfold padded, new_Array. rewrite List.repeat_length.
  replace (Nat.max (N.to_nat n) 1 - N.to_nat n)%nat with 0%nat by lia.
  apply List.app_nil_r.
Qed.

Lemma block_hash_eq (params : Params) :
  block_hash params = repeat 0 (N.to_nat (num_or (hashLen params) 24)).
Proof. apply padded_new_Array, num_or_nonzero. discriminate. Qed.

Lemma block_encoded_eq : block_encoded = repeat 0 512.
Proof. apply (padded_new_Array 512). discriminate. Qed.

Lemma region_hash (params : Params) (a0 : Arena) :
  region (HEAP8 (arena_at_call params a0)) (ptr_hash params a0)
         (List.length (block_hash params))
  = block_hash params.
Proof.
  rewrite heap_at_call_eq. unfold region.
  rewrite read_below_write.
  - apply read_own_write.
  - unfold ptr_encoded. lia.
  - apply write_bytes_length.
Qed.

Lemma region_encoded (params : Params) (a0 : Arena) :
  region (HEAP8 (arena_at_call params a0)) (ptr_encoded params a0)
         (List.length block_encoded)
  = block_encoded.
Proof. rewrite heap_at_call_eq. unfold region. apply read_own_write. Qed.

Lemma calcHash_allocations (E : Engine) (params : Params) (a0 : Arena) :
  exists frees,
    ops (snd (calcHash E params a0))
    = ops a0 ++ [Alloc (ptr_pwd a0) (List.length (block_pwd params));
                 Alloc (ptr_salt params a0) (List.length (block_salt params));
                 Alloc (ptr_hash params a0) (List.length (block_hash params));
                 Alloc (ptr_encoded params a0) (List.length block_encoded)]
             ++ frees.
Proof.
  rewrite calcHash_leaves, free_each_ops.
  unfold arena_at_call. rewrite alloc_buffers_eq.
  unfold set_heap. cbn [snd ops]. rewrite <- List.app_assoc. eauto.
Qed.


(** ** What the engine is told to read *)

Lemma input_length_le (x : Input) :
  (N.to_nat (input_length x) <= List.length (input_bytes x))%nat.
Proof.
  destruct x as [units|bytes]; simpl; rewrite Nnat.Nat2N.id; [|lia].
  rewrite intArrayFromString_length.
  pose proof (proj1 (stringToUTF8_length_ge units)). lia.
Qed.

Lemma region_prefix heap ptr n block :
  region heap ptr (List.length block) = block -> (n <= List.length block)%nat ->
  region heap ptr n = firstn n block.
Proof.
  unfold region. intros Hb Hn. rewrite <- Hb at 1.
  rewrite List.firstn_firstn. now replace (Nat.min n (List.length block)) with n by lia.
Qed.

Lemma firstn_padded n arr :
  (n <= List.length arr)%nat -> firstn n (padded arr) = firstn n arr.
Proof.
  intros Hn. unfold padded. rewrite List.firstn_app.
  replace (n - List.length arr)%nat with 0%nat by lia. simpl. apply List.app_nil_r.
Qed.

Lemma region_secret (params : Params) (a0 : Arena) (which : Secret) (n : nat) :
  (n <= List.length (input_bytes (secret_of which params)))%nat ->
  region (HEAP8 (arena_at_call params a0))
         (secret_ptr which (engine_call params a0)) n
  = firstn n (input_bytes (secret_of which params)).
Proof.
  intros Hn. rewrite engine_call_eq. rewrite <- firstn_padded by exact Hn.
  assert (Hp : (n <= List.length (padded (input_bytes (secret_of which params))))%nat)
    by (rewrite padded_length; lia).
  destruct which; cbn [secret_ptr secret_of hash_call arg_pwd arg_salt] in *.
  - apply region_prefix; [apply region_pwd|exact Hp].
  - apply region_prefix; [apply region_salt|exact Hp].
Qed.

Lemma stringToUTF8_ascii units :
  Forall (fun u => u <= 0x7F) units -> stringToUTF8 units = units.
Proof.
  induction 1 as [|u rest Hu _ IH]; [reflexivity|].
  assert (Hs : is_surrogate u = false).
  { unfold is_surrogate. destruct (Z.leb_spec 0xD800 u); [lia|reflexivity]. }
  simpl. rewrite Hs. unfold utf8_bytes.
  destruct (Z.leb_spec u 0x7F); [|lia]. simpl. now rewrite IH.
Qed.

(** X3. What the engine is told to read of the password and of the
    salt lies inside the block [calcHash] stored for it: the length
    handed over never exceeds the number of bytes stored, and the bytes
    at the address handed over are the first [length] bytes of what was
    stored. For a byte array these are all its bytes, for a string of
    one-byte characters they are its characters, without the
    terminator. *)
Theorem engine_reads_prefix (params : Params) (a0 : Arena) (which : Secret) :
  exists (call : HashCall) (heap : list Z),
    hashing_function_receives params a0 call heap
    /\ let len := N.to_nat (secret_len which call) in
       let stored := input_bytes (secret_of which params) in
       (len <= List.length stored)%nat
       /\ region heap (secret_ptr which call) len = firstn len stored
       /\ (forall bytes, secret_of which params = IBytes bytes ->
             region heap (secret_ptr which call) len = bytes)
       /\ (forall units, secret_of which params = IStr units ->
             Forall (fun u => u <= 0x7F) units ->
             region heap (secret_ptr which call) len = units).
Proof.
  exists (engine_call params a0), (HEAP8 (arena_at_call params a0)).
  split; [apply receives_engine_call|].
  cbv zeta.
  assert (Hlen : secret_len which (engine_call params a0)
                 = input_length (secret_of which params)).
  { rewrite engine_call_eq. destruct which; reflexivity. }
  rewrite Hlen.
  pose proof (input_length_le (secret_of which params)) as Hle.
  pose proof (region_secret params a0 which _ Hle) as Hreg.
  split; [exact Hle|]. split; [exact Hreg|]. split.
  - intros bytes Hb. rewrite Hreg, Hb. simpl.
    rewrite Nnat.Nat2N.id. apply List.firstn_all.
  - intros units Hu Hascii. rewrite Hreg, Hu. simpl.
    rewrite Nnat.Nat2N.id. unfold intArrayFromString.
    rewrite (stringToUTF8_ascii units Hascii).
    rewrite List.firstn_app, Nat.sub_diag, List.firstn_all. simpl.
    apply List.app_nil_r.
Qed.

(** X4. Two string passwords with the same number of code units, whose
    encodings agree on that many leading bytes, are the same password to
    the engine: it is given the same length and finds the same bytes at
    the address of the password. *)
Theorem truncated_passwords_collide (p q : Params) (a0 : Arena)
        (units units' : list Z)
        (Hp : pass p = IStr units) (Hq : pass q = IStr units')
        (Hlen : List.length units = List.length units')
        (Hpre : firstn (List.length units) (stringToUTF8 units)
                = firstn (List.length units) (stringToUTF8 units')) :
  exists (call call' : HashCall) (heap heap' : list Z),
    hashing_function_receives p a0 call heap
    /\ hashing_function_receives q a0 call' heap'
    /\ arg_pwdlen call = arg_pwdlen call'
    /\ region heap (arg_pwd call) (N.to_nat (arg_pwdlen call))
       = region heap' (arg_pwd call') (N.to_nat (arg_pwdlen call')).
Proof.
  exists (engine_call p a0), (engine_call q a0),
    (HEAP8 (arena_at_call p a0)), (HEAP8 (arena_at_call q a0)).
  split; [apply receives_engine_call|]. split; [apply receives_engine_call|].
  assert (Hl : forall r us, pass r = IStr us ->
             arg_pwdlen (engine_call r a0) = N.of_nat (List.length us)).
  { intros r us Hr. rewrite engine_call_eq. cbn [hash_call arg_pwdlen].
    rewrite Hr. reflexivity. }
  assert (Hr : forall r us, pass r = IStr us ->
             region (HEAP8 (arena_at_call r a0)) (arg_pwd (engine_call r a0))
                    (List.length us)
             = firstn (List.length us) (stringToUTF8 us)).
  { intros r us Hr.
    pose proof (region_secret r a0 Password (List.length us)) as H.
    cbn [secret_ptr secret_of] in H. rewrite Hr in H. cbn [input_bytes] in H.
    pose proof (proj1 (stringToUTF8_length_ge us)) as Hge.
    rewrite H by (rewrite intArrayFromString_length; lia).
    unfold intArrayFromString. rewrite List.firstn_app.
    replace (List.length us - List.length (stringToUTF8 us))%nat with 0%nat by lia.
    simpl. apply List.app_nil_r. }
  rewrite (Hl p units Hp), (Hl q units' Hq), !Nnat.Nat2N.id.
  split; [now rewrite Hlen|].
  rewrite (Hr p units Hp), (Hr q units' Hq), <- Hlen. exact Hpre.
Qed.

Lemma truncated_passwords_collide_witness :
  pass Fixture_params_e_acute = IStr [233]
  /\ pass Fixture_params_c_cedilla = IStr [231]
  /\ stringToUTF8 [233] = [195; 169]
  /\ stringToUTF8 [231] = [195; 167]
  /\ exists (call call' : HashCall) (heap heap' : list Z),
       hashing_function_receives Fixture_params_e_acute empty_arena call heap
       /\ hashing_function_receives Fixture_params_c_cedilla empty_arena call' heap'
       /\ region heap (arg_pwd call) (N.to_nat (arg_pwdlen call))
          = region heap' (arg_pwd call') (N.to_nat (arg_pwdlen call')).
Proof.
  destruct (truncated_passwords_collide Fixture_params_e_acute
              Fixture_params_c_cedilla empty_arena [233] [231]
              eq_refl eq_refl eq_refl eq_refl)
    as (call & call' & heap & heap' & Hr & Hr' & _ & H).
  split; [reflexivity|]. split; [reflexivity|].
  split; [reflexivity|]. split; [reflexivity|].
  exists call, call', heap, heap'.
  split; [exact Hr|]. split; [exact Hr'|exact H].
Defined.

(** ** One call of the hashing function *)

Lemma HashCall_eqb_eq (c c' : HashCall) : HashCall_eqb c c' = true <-> c = c'.
Proof.
  split.
  - unfold HashCall_eqb. intros H.
    repeat (apply andb_prop in H; destruct H as [H ?]).
    repeat match goal with
           | H : (_ =? _)%N = true |- _ => apply N.eqb_eq in H
           | H : (_ =? _)%nat = true |- _ => apply Nat.eqb_eq in H
           end.
    destruct c, c'; cbn in *; congruence.
  - intros <-. unfold HashCall_eqb.
    now rewrite !N.eqb_refl, !Nat.eqb_refl.
Qed.

Lemma heap_eqb_eq (h h' : list Z) : heap_eqb h h' = true <-> h = h'.
Proof.
  revert h'. induction h as [|x t IH]; intros [|y t']; simpl;
    try (split; [discriminate|discriminate]); [tauto|].
  rewrite andb_true_iff, Z.eqb_eq, IH. split; [intros [-> ->]; reflexivity|].
  intros H. inversion H. tauto.
Qed.

Lemma probe_here call heap :
  _argon2_hash (probe call heap) call heap = (Throw (VStr "here"), heap).
Proof.
  cbn. now rewrite (proj2 (HashCall_eqb_eq call call) eq_refl),
    (proj2 (heap_eqb_eq heap heap) eq_refl).
Qed.

Lemma probe_elsewhere call heap call' heap' :
  (call', heap') <> (call, heap) ->
  _argon2_hash (probe call heap) call' heap' = (Throw (VStr "elsewhere"), heap').
Proof.
  intros Hne. cbn.
  destruct (HashCall_eqb call' call && heap_eqb heap' heap) eqn:Heq; [|reflexivity].
  apply andb_prop in Heq. destruct Heq as [Hc Hh].
  apply HashCall_eqb_eq in Hc. apply heap_eqb_eq in Hh. subst. contradiction.
Qed.



(** ** The hexadecimal form read back *)

Lemma hex_digit_cases (d : Z) :
  0 <= d < 16 ->
  hex_value (hex_digit d) = d /\ is_lower_hex (hex_digit d) = true.
Proof.
  intros Hd.
  assert (H : In d (map Z.of_nat (seq 0 16))).
  { replace d with (Z.of_nat (Z.to_nat d)) by lia. apply in_map, in_seq. lia. }
  simpl in H.
  repeat (destruct H as [<-|H]; [split; reflexivity|]). destruct H.
Qed.

Lemma hex_decode_encode (bytes : list Z) :
  Forall (fun b => 0 <= b < 256) bytes -> hex_decode (hex_encode bytes) = bytes.
Proof.
  induction 1 as [|b rest Hb _ IH]; [reflexivity|].
  cbn [hex_encode hex_decode]. rewrite IH.
  destruct (hex_digit_cases (b / 16)) as [-> _].
  { split; [apply Z.div_pos; lia|apply Z.div_lt_upper_bound; lia]. }
  destruct (hex_digit_cases (b mod 16)) as [-> _].
  { apply Z.mod_pos_bound. lia. }
  f_equal. pose proof (Z.div_mod b 16). lia.
Qed.

Lemma hex_encode_lower (bytes : list Z) :
  Forall (fun b => 0 <= b < 256) bytes ->
  forallb is_lower_hex (list_ascii_of_string (hex_encode bytes)) = true.
Proof.
  induction 1 as [|b rest Hb _ IH]; [reflexivity|].
  cbn [hex_encode list_ascii_of_string forallb]. rewrite IH.
  destruct (hex_digit_cases (b / 16)) as [_ ->].
  { split; [apply Z.div_pos; lia|apply Z.div_lt_upper_bound; lia]. }
  destruct (hex_digit_cases (b mod 16)) as [_ ->].
  { apply Z.mod_pos_bound. lia. }
  reflexivity.
Qed.

(** X6. The success result of a call, whatever the engine: the byte
    array has [hashLen] bytes (24 when absent or 0), each in 0..255
    whatever the signed memory held; the text has two characters per
    byte, all of them among 0-9 and a-f; and the text determines the bytes
    (reading it back as hexadecimal gives the byte array). *)
Theorem success_result_round_trip (E : Engine) (params : Params) (a0 : Arena)
        (hash : list Z) (hashHex encoded : string)
        (Hok : fst (calcHash E params a0) = Normal (VHashResult hash hashHex encoded)) :
  List.length hash = N.to_nat (num_or (hashLen params) 24)
  /\ Forall (fun b => 0 <= b < 256) hash
  /\ String.length hashHex = (2 * List.length hash)%nat
  /\ forallb is_lower_hex (list_ascii_of_string hashHex) = true
  /\ hex_decode hashHex = hash.
Proof.
  destruct (calcHash_normal_shape E params a0 _ Hok)
    as [(h & hx & enc & _ & H0)|(m & Hm & _)]; [|discriminate].
  rewrite (calcHash_success E params a0 H0) in Hok. inversion Hok; subst. clear Hok.
  set (arr := map to_uint8 (output_bytes _ _ _)).
  assert (Hlen : List.length arr = N.to_nat (num_or (hashLen params) 24)).
  { subst arr. unfold output_bytes. now rewrite !List.length_map, List.length_seq. }
  assert (Hrange : Forall (fun b => 0 <= b < 256) arr).
  { subst arr. apply Forall_forall. intros b Hin. apply in_map_iff in Hin.
    destruct Hin as (x & <- & _). apply to_uint8_range. }
  split; [exact Hlen|]. split; [exact Hrange|].
  split; [apply hex_encode_length|].
  split; [apply hex_encode_lower, Hrange|apply hex_decode_encode, Hrange].
Qed.

Lemma success_result_round_trip_witness :
  fst (calcHash Fixture.ok Fixture.params_wasm empty_arena)
  = Normal (VHashResult [1; 255; 127; 128] "01ff7f80" "$ar")
  /\ hex_decode "01ff7f80" = [1; 255; 127; 128].
Proof.
  assert (H : fst (calcHash Fixture.ok Fixture.params_wasm empty_arena)
              = Normal (VHashResult [1; 255; 127; 128] "01ff7f80" "$ar"))
    by (vm_compute; reflexivity).
  split; [exact H|].
  exact (proj2 (proj2 (proj2 (proj2
    (success_result_round_trip Fixture.ok Fixture.params_wasm empty_arena _ _ _ H))))).
Defined.

(** * More about the loader *)

(** ** What a caller can receive *)

Lemma Forall_set_nth {A} (P : A -> Prop) k (x : A) l :
  Forall P l -> P x -> Forall P (set_nth k x l).
Proof.
  intros H Hx. revert k. induction H as [|y l Hy Hl IH]; intros [|k]; simpl;
    constructor; auto.
Qed.

Lemma returned_result_ok (E : Engine) params a0 v :
  fst (calcHash E params a0) = Normal v -> is_returned_result v.
Proof.
  intros Hv. destruct (calcHash_normal_shape E params a0 v Hv)
    as [(h & hx & enc & -> & _)|(m & -> & Ht & _)]; [left|right]; eauto.
Qed.

Section Received.

Variable host : Host.
Variable E : Engine.

Lemma ok_settle st k s : promises_ok st -> settlement_ok s -> promises_ok (settle k s st).
Proof.
  intros H Hs. unfold settle.
  destruct (nth_error (promises st) k) as [[?|]|]; try exact H.
  apply Forall_set_nth; assumption.
Qed.

Lemma ok_resolve_calcHash st k params :
  promises_ok st -> promises_ok (resolve_calcHash E k params st).
Proof.
  intros H. unfold resolve_calcHash. rewrite run_calcHash_eq.
  destruct (fst (calcHash E params (arena st))) as [v|e] eqn:Hc; [|exact H].
  apply ok_settle; [exact H|]. exact (returned_result_ok E params _ v Hc).
Qed.

Lemma ok_fallback_calcHash st k params :
  promises_ok st -> promises_ok (fallback_calcHash E k params st).
Proof.
  intros H. unfold fallback_calcHash. rewrite run_calcHash_eq.
  destruct (fst (calcHash E params (arena st))) as [v|e] eqn:Hc;
    (apply ok_settle; [exact H|]).
  - exact (returned_result_ok E params _ v Hc).
  - right. right. right. eauto.
Qed.

Lemma ok_reject_wrapper st k error :
  promises_ok st -> promises_ok (reject_wrapper k error st).
Proof. intros H. apply ok_settle; [exact H|]. right. right. left. eauto. Qed.

Lemma ok_chain st r : promises_ok st -> promises_ok (chain r st).
Proof.
  intros H. unfold chain.
  destruct (loadArgon2WrapperPromise st) as [[rs| |error]|]; try exact H.
  - destruct r; exact H.
  - destruct r; apply ok_reject_wrapper, H.
Qed.

Lemma ok_ensure_wrapper st params :
  promises_ok st -> promises_ok (ensure_wrapper params st).
Proof.
  intros H. unfold ensure_wrapper.
  destruct (loadArgon2WrapperPromise st); exact H.
Qed.

Lemma ok_argon2Hash st params k :
  promises_ok st -> promises_ok (argon2Hash host params k st).
Proof.
  intros H. unfold argon2Hash.
  destruct (use_fallback host params); [exact H|].
  destruct (module_exists st && negb (globalModuleIsFullyLoaded st)); [exact H|].
  destruct (module_exists st && is_native_wasm st && globalModuleIsFullyLoaded st).
  - apply ok_chain, ok_ensure_wrapper, H.
  - unfold instantiate. destruct (initialMemory params); [exact H|].
    apply ok_settle; [exact H|]. left. reflexivity.
Qed.

Lemma ok_xhr_onload st k params :
  promises_ok st -> promises_ok (xhr_onload k params st).
Proof.
  intros H. unfold xhr_onload. destruct (global_Module st); [|exact H].
  apply ok_chain, ok_ensure_wrapper, H.
Qed.

Lemma ok_xhr_onerror st k params :
  promises_ok st -> promises_ok (xhr_onerror k params st).
Proof. intros H. apply ok_settle; [exact H|]. right. left. eauto. Qed.

Lemma ok_rejected_all st error rs :
  promises_ok st -> promises_ok (fold_left (fun s r => on_rejected error r s) rs st).
Proof.
  revert st. induction rs as [|r rs IH]; intros st H; simpl; [exact H|].
  apply IH. destruct r; apply ok_reject_wrapper, H.
Qed.

Lemma ok_script_onload st req :
  promises_ok st -> promises_ok (script_onload E req st).
Proof.
  intros H. destruct req as [src|src k params]; cbn [script_onload].
  - destruct (loadArgon2WrapperPromise st) as [[rs| |error]|]; try exact H.
    rewrite fulfilled_all. exact H.
  - apply ok_fallback_calcHash. unfold define_Module.
    destruct (global_Module st); exact H.
Qed.

Lemma ok_script_onerror st req error :
  promises_ok st -> promises_ok (script_onerror host req error st).
Proof.
  intros H. destruct req as [src|src k params]; cbn [script_onerror].
  - destruct (loadArgon2WrapperPromise st) as [[rs| |error']|]; try exact H.
    apply ok_rejected_all. exact H.
  - apply ok_settle; [exact H|]. right. right. right. eauto.
Qed.

Lemma ok_post_run st : promises_ok st -> promises_ok (post_run E st).
Proof.
  intros H. unfold post_run.
  destruct (global_Module st) as [M|]; [|exact H].
  destruct (loadArgon2WrapperPromise st) as [[rs| |error]|]; try exact H;
    (destruct (postRun M) as [[k params]|]; [|exact H]);
    apply ok_resolve_calcHash; exact H.
Qed.

Lemma ok_timer_fires st : promises_ok st -> promises_ok (timer_fires host E st).
Proof.
  intros H. unfold timer_fires.
  destruct (timers st) as [|[k params|k params] rest]; [exact H| |].
  - apply ok_argon2Hash. exact H.
  - apply ok_resolve_calcHash. exact H.
Qed.

Lemma ok_step st ev : promises_ok st -> promises_ok (step host E st ev).
Proof.
  intros H. destruct ev as [params| |i|i|i|i error|]; cbn [step].
  - apply ok_argon2Hash. unfold promises_ok. cbn.
    apply Forall_app. split; [exact H|repeat constructor].
  - apply ok_timer_fires, H.
  - destruct (nth_error (xhrs st) i) as [[k params]|]; [|exact H].
    apply ok_xhr_onload. exact H.
  - destruct (nth_error (xhrs st) i) as [[k params]|]; [|exact H].
    apply ok_xhr_onerror. exact H.
  - destruct (nth_error (scripts st) i) as [req|]; [|exact H].
    apply ok_script_onload. exact H.
  - destruct (nth_error (scripts st) i) as [req|]; [|exact H].
    apply ok_script_onerror. exact H.
  - apply ok_post_run, H.
Qed.

Lemma ok_run st evs : promises_ok st -> promises_ok (run host E st evs).
Proof.
  revert st. induction evs as [|ev evs IH]; intros st H; [exact H|].
  cbn [run fold_left]. apply IH, ok_step, H.
Qed.

End Received.



(** ** The size of the memory *)

(** X9. The memory the first primary caller creates, for every [mem] it
    may give: it starts between 512 and 32767 pages, never above its
    maximum; up to 16 MiB of [mem] it starts at 512 pages; above, it
    starts at ceil(mem / 64) + 256 pages until that reaches the maximum,
    which happens exactly when [mem] exceeds 2080640 KiB; and beyond
    2097088 KiB the memory created is smaller than the memory asked
    for. *)
Theorem memory_size_bounds (host : Host) (E : Engine) (st : State) (params : Params)
        (m : N)
        (Hprimary : select host params = Primary)
        (Hfirst : global_Module st = None)
        (Hmem : mem params = Some m) :
  exists (M : ModuleObj) (pages : N),
    global_Module (step host E st (Hash params)) = Some M
    /\ wasmMemory M = Some {| initial := pages; maximum := 32767%N |}
    /\ (512 <= pages <= 32767)%N
    /\ ((m <= 16384)%N -> pages = 512%N)
    /\ ((16384 < m <= 2080640)%N -> pages = ((m + 63) / 64 + 256)%N)
    /\ ((2080640 < m)%N <-> pages = 32767%N)
    /\ ((2097088 < m)%N -> (pages * 64 < m)%N).
Proof.
  rewrite (first_primary_call host E st params Hprimary Hfirst).
  unfold instantiate, initialMemory. rewrite Hmem.
  eexists. eexists. split; [reflexivity|]. cbn [wasmMemory].
  rewrite totalMemory_pages. split; [reflexivity|].
  unfold Math_ceil_div, WASM_PAGE_SIZE.
  destruct (N.eqb_spec ((m * 1024) mod (64 * 1024)) 0);
    repeat split; intros;
    zify; Z.to_euclidean_division_equations; lia.
Qed.

Lemma memory_size_bounds_witness :
  select Fixture.browser Fixture.params_wasm = Primary
  /\ global_Module initial_state = None
  /\ mem Fixture.params_wasm = Some 1024%N
  /\ exists (M : ModuleObj),
       global_Module (step Fixture.browser Fixture.ok initial_state
                           (Hash Fixture.params_wasm)) = Some M
       /\ wasmMemory M = Some {| initial := 512%N; maximum := 32767%N |}.
Proof.
  split; [reflexivity|]. split; [reflexivity|]. split; [reflexivity|].
  destruct (memory_size_bounds Fixture.browser Fixture.ok initial_state
              Fixture.params_wasm 1024%N eq_refl eq_refl eq_refl)
    as (M & pages & HM & Hmemory & _ & Hsmall & _).
  exists M. split; [exact HM|].
  rewrite Hmemory, (Hsmall ltac:(lia)). reflexivity.
Defined.

(** ** What each callback does for its caller *)

Lemma arena_define_Module st : arena (define_Module st) = arena st.
Proof. unfold define_Module. destruct (global_Module st); reflexivity. Qed.

Lemma promises_define_Module st : promises (define_Module st) = promises st.
Proof. unfold define_Module. destruct (global_Module st); reflexivity. Qed.

(** Settling a promise touches nothing but the promises. *)
Lemma settle_frame st k s :
  globalModuleIsFullyLoaded (settle k s st) = globalModuleIsFullyLoaded st
  /\ timers (settle k s st) = timers st
  /\ loadArgon2WrapperPromise (settle k s st) = loadArgon2WrapperPromise st.
Proof.
  unfold settle. destruct (nth_error (promises st) k) as [[?|]|]; repeat split.
Qed.

(** X10. A caller on the fallback path is always settled when its script
    loads or fails, from any state: it is resolved with what [calcHash]
    returns; when [calcHash] throws, or the script fails to load, it is
    rejected with an [Error] whose text starts with "Error loading
    argon2-asm.min.js: ", followed by the text of what was thrown, or of
    what [loadScript] rejected with: in a worker the exception of
    [importScripts], in a page "Error loading script: " and the event. *)
Theorem fallback_caller_settles (host : Host) (E : Engine) (st : State) (i : nat)
        (src : option string) (k : nat) (params : Params)
        (Hreq : nth_error (scripts st) i = Some (FallbackScript src k params))
        (Hpending : nth_error (promises st) k = Some None) :
  outcome (step host E st (ScriptOnload i)) k
  = Some (match fst (calcHash E params (arena st)) with
          | Normal v => Resolved v
          | Throw x =>
              RejectedWith (VError ("Error loading argon2-asm.min.js: " ++ toString x))
          end)
  /\ forall error,
      outcome (step host E st (ScriptOnerror i error)) k
      = Some (RejectedWith
                (VError ("Error loading argon2-asm.min.js: "
                           ++ (if importScripts host then toString error
                               else "Error loading script: " ++ toString error)))).
Proof.
  split.
  - cbn [step]. rewrite Hreq. cbn [script_onload].
    unfold fallback_calcHash. rewrite run_calcHash_eq, arena_define_Module.
    cbn [arena set_scripts].
    destruct (fst (calcHash E params (arena st))); apply outcome_settle;
      cbn [promises set_arena emit]; rewrite promises_define_Module; exact Hpending.
  - intros error. cbn [step]. rewrite Hreq. cbn [script_onerror].
    rewrite outcome_settle by exact Hpending.
    unfold loadScript_reason. destruct (importScripts host); reflexivity.
Qed.

Lemma fallback_caller_settles_witness :
  nth_error (scripts (step Fixture.old_browser Fixture.status1 initial_state
                           (Hash Fixture.params_asm))) 0
  = Some (FallbackScript (Some "argon2-asm.min.js") 0 Fixture.params_asm)
  /\ outcome (run Fixture.old_browser Fixture.status1 initial_state
                  [Hash Fixture.params_asm; ScriptOnerror 0 (VObject "Event")]) 0
     = Some (RejectedWith
               (VError "Error loading argon2-asm.min.js: Error loading script: [object Event]")).
Proof.
  split; [reflexivity|].
  exact (proj2 (fallback_caller_settles Fixture.old_browser Fixture.status1
                  (step Fixture.old_browser Fixture.status1 initial_state
                        (Hash Fixture.params_asm))
                  0 _ 0 Fixture.params_asm eq_refl eq_refl) (VObject "Event")).
Defined.

(** X11. [resolve(calcHash(params))], in [postRun] (line 148) and in the
    timer of line 106, from any state in which it runs for a pending
    promise: the promise is resolved with what [calcHash] returns, and
    stays pending when [calcHash] throws. [postRun] has set the loaded
    flag before, so the flag is set in both cases. *)
Theorem resolve_calcHash_settles (host : Host) (E : Engine) (st : State)
        (k : nat) (params : Params)
        (Hpending : nth_error (promises st) k = Some None) :
  let expected := match fst (calcHash E params (arena st)) with
                  | Normal v => Some (Resolved v)
                  | Throw _ => None
                  end in
  (forall M w,
      global_Module st = Some M -> postRun M = Some (k, params) ->
      loadArgon2WrapperPromise st = Some w -> (forall e, w <> Rejected e) ->
      outcome (step host E st PostRun) k = expected
      /\ globalModuleIsFullyLoaded (step host E st PostRun) = true)
  /\ (forall rest,
        timers st = Calc k params :: rest ->
        outcome (step host E st TimerFires) k = expected
        /\ timers (step host E st TimerFires) = rest).
Proof.
  cbv zeta.
  assert (Hres : forall st', arena st' = arena st -> promises st' = promises st ->
            outcome (resolve_calcHash E k params st') k
            = match fst (calcHash E params (arena st)) with
              | Normal v => Some (Resolved v)
              | Throw _ => None
              end).
  { intros st' Ha Hp. unfold resolve_calcHash. rewrite run_calcHash_eq, Ha.
    destruct (fst (calcHash E params (arena st))).
    - apply outcome_settle. cbn [promises set_arena emit]. now rewrite Hp.
    - unfold outcome. cbn [promises set_arena emit]. now rewrite Hp, Hpending. }
  assert (Hflag : forall st', globalModuleIsFullyLoaded
                                (resolve_calcHash E k params st')
                              = globalModuleIsFullyLoaded st').
  { intros st'. unfold resolve_calcHash. rewrite run_calcHash_eq.
    destruct (fst (calcHash E params (arena st'))); [|reflexivity].
    now rewrite (proj1 (settle_frame _ _ _)). }
  assert (Htimers : forall st', timers (resolve_calcHash E k params st') = timers st').
  { intros st'. unfold resolve_calcHash. rewrite run_calcHash_eq.
    destruct (fst (calcHash E params (arena st'))); [|reflexivity].
    now rewrite (proj1 (proj2 (settle_frame _ _ _))). }
  split.
  - intros M w HM Hpost Hw Hnot. cbn [step]. unfold post_run. rewrite HM, Hw, Hpost.
    destruct w as [rs| |e]; [| |exfalso; exact (Hnot e eq_refl)];
      (split; [apply Hres; reflexivity|rewrite Hflag; reflexivity]).
  - intros rest Ht. cbn [step]. unfold timer_fires. rewrite Ht.
    split; [apply Hres; reflexivity|rewrite Htimers; reflexivity].
Qed.

Lemma resolve_calcHash_settles_witness :
  nth_error (promises (run Fixture.browser Fixture.ok initial_state
                           [Hash Fixture.params_wasm; XhrOnload 0; ScriptOnload 0])) 0
  = Some None
  /\ outcome (step Fixture.browser Fixture.ok
                   (run Fixture.browser Fixture.ok initial_state
                        [Hash Fixture.params_wasm; XhrOnload 0; ScriptOnload 0])
                   PostRun) 0
     = Some (Resolved (VHashResult [1; 255; 127; 128] "01ff7f80" "$ar")).
Proof.
  assert (Hpending :
            nth_error (promises (run Fixture.browser Fixture.ok initial_state
                                     [Hash Fixture.params_wasm; XhrOnload 0; ScriptOnload 0]))
                      0 = Some None) by (vm_compute; reflexivity).
  split; [exact Hpending|].
  pose proof (resolve_calcHash_settles Fixture.browser Fixture.ok _ 0
                Fixture.params_wasm Hpending) as H.
  cbv zeta in H. destruct H as [H _].
  assert (HM : exists M,
             global_Module (run Fixture.browser Fixture.ok initial_state
                                [Hash Fixture.params_wasm; XhrOnload 0; ScriptOnload 0])
             = Some M
             /\ postRun M = Some (0%nat, Fixture.params_wasm))
    by (vm_compute; eexists; split; reflexivity).
  destruct HM as (M & HM & Hpost).
  assert (Hw : loadArgon2WrapperPromise
                 (run Fixture.browser Fixture.ok initial_state
                      [Hash Fixture.params_wasm; XhrOnload 0; ScriptOnload 0])
               = Some Fulfilled) by (vm_compute; reflexivity).
  destruct (H M Fulfilled HM Hpost Hw ltac:(discriminate)) as [Hout _].
  rewrite Hout. vm_compute. reflexivity.
Defined.

(** ** Failure of the wrapper script *)

Section WrapperFailure.

Variable k : nat.
Variable reason : Value.

Local Abbreviation rejection :=
  (RejectedWith (VStr ("Error loading argon2.min.js (WASM already loaded): "
                         ++ toString reason))).

Lemma rejected_all_kept st rs :
  outcome st k = Some rejection ->
  outcome (fold_left (fun s r => on_rejected reason r s) rs st) k = Some rejection.
Proof.
  intros H. destruct (never_reset_rejected_all st reason rs) as (_ & _ & _ & _ & _ & Ho & _).
  apply Ho, H.
Qed.

Lemma rejected_all_reaches st rs :
  nth_error (promises st) k = Some None ->
  In k (map reaction_target rs) ->
  outcome (fold_left (fun s r => on_rejected reason r s) rs st) k = Some rejection.
Proof.
  revert st. induction rs as [|r rs IH]; intros st Hp Hin; [destruct Hin|].
  cbn [fold_left].
  destruct (Nat.eq_dec (reaction_target r) k) as [Heq|Hne].
  - apply rejected_all_kept.
    destruct r as [k' p|k']; cbn in Heq; subst k'; cbn [on_rejected];
      apply outcome_settle, Hp.
  - apply IH.
    + destruct r as [k' p|k']; cbn in Hne; cbn [on_rejected]; unfold reject_wrapper, settle;
        (destruct (nth_error (promises st) k') as [[?|]|]; [exact Hp| |exact Hp]);
        cbn [promises set_promises]; rewrite nth_error_set_nth_other by exact Hne;
        exact Hp.
    + destruct Hin as [Heq|Hin]; [contradiction|exact Hin].
Qed.

End WrapperFailure.

(** X12. When the wrapper script fails to load, every caller that had
    chained on the wrapper promise and is still pending is rejected, all
    with the same reason, "Error loading argon2.min.js (WASM already
    loaded): " followed by the text of what [loadScript] rejected with,
    and the wrapper promise stays rejected. *)
Theorem wrapper_failure_rejects_chained (host : Host) (E : Engine) (st : State)
        (i : nat) (src : option string) (rs : list Reaction) (error : Value) (k : nat)
        (Hreq : nth_error (scripts st) i = Some (WrapperScript src))
        (Hw : loadArgon2WrapperPromise st = Some (Pending rs))
        (Hin : In k (map reaction_target rs))
        (Hpending : nth_error (promises st) k = Some None) :
  let reason := if importScripts host then error
                else VStr ("Error loading script: " ++ toString error) in
  outcome (step host E st (ScriptOnerror i error)) k
  = Some (RejectedWith
            (VStr ("Error loading argon2.min.js (WASM already loaded): "
                     ++ toString reason)))
  /\ forall evs,
      loadArgon2WrapperPromise (run host E (step host E st (ScriptOnerror i error)) evs)
      = Some (Rejected reason).
Proof.
  cbv zeta. cbn [step]. rewrite Hreq. cbn [script_onerror].
  cbn [loadArgon2WrapperPromise set_scripts]. rewrite Hw.
  fold (loadScript_reason host error). split.
  - apply rejected_all_reaches; [exact Hpending|exact Hin].
  - intros evs.
    set (st0 := set_wrapper _ _).
    destruct (never_reset_rejected_all st0 (loadScript_reason host error) rs)
      as (_ & _ & _ & _ & Hs0 & _).
    destruct (never_reset_run host E
                (fold_left (fun s r => on_rejected (loadScript_reason host error) r s)
                           rs st0) evs)
      as (_ & _ & _ & _ & Hs & _).
    apply Hs; [|reflexivity]. apply Hs0; reflexivity.
Qed.

Lemma wrapper_failure_rejects_chained_witness :
  loadArgon2WrapperPromise
    (run Fixture.browser Fixture.ok initial_state [Hash Fixture.params_wasm; XhrOnload 0])
  = Some (Pending [CatchOnly 0])
  /\ outcome (step Fixture.browser Fixture.ok
                   (run Fixture.browser Fixture.ok initial_state
                        [Hash Fixture.params_wasm; XhrOnload 0])
                   (ScriptOnerror 0 (VObject "Event"))) 0
     = Some (RejectedWith
               (VStr "Error loading argon2.min.js (WASM already loaded): Error loading script: [object Event]")).
Proof.
  assert (Hw : loadArgon2WrapperPromise
                 (run Fixture.browser Fixture.ok initial_state
                      [Hash Fixture.params_wasm; XhrOnload 0])
               = Some (Pending [CatchOnly 0])) by (vm_compute; reflexivity).
  assert (Hreq : nth_error (scripts (run Fixture.browser Fixture.ok initial_state
                                         [Hash Fixture.params_wasm; XhrOnload 0])) 0
                 = Some (WrapperScript (Some "argon2.min.js")))
    by (vm_compute; reflexivity).
  assert (Hpending : nth_error (promises (run Fixture.browser Fixture.ok initial_state
                                              [Hash Fixture.params_wasm; XhrOnload 0])) 0
                     = Some None) by (vm_compute; reflexivity).
  split; [exact Hw|].
  pose proof (wrapper_failure_rejects_chained Fixture.browser Fixture.ok _ 0 _ _
                (VObject "Event") 0 Hreq Hw (or_introl eq_refl) Hpending) as H.
  cbv zeta in H. destruct H as [H _].
  rewrite H. reflexivity.
Defined.
